(** * gpg_secretstore: the Ansible module of famedly.base, embedded in Rocq

    The development follows [plugins/modules/gpg_secretstore.py]:
    the [SecretGenerator] class with its three strategies, and [main], the
    state machine over (state, overwrite, existing envelope, recipient
    consistency) that runs under a per-slug file lock.

    A Python [str] is represented by the [string] of its UTF-8 bytes, a
    Python [int] by [Z], [None] by the [None] of an [option]. Exceptions are
    values of [exn]; effectful code lives in a state-and-exception monad. *)

From Stdlib Require Import ZArith Lia List Bool Ascii String.
From stdpp Require Import gmap strings list.
Import ListNotations.

Local Open Scope string_scope.
Local Open Scope Z_scope.

(** ** Exceptions *)

Inductive exn :=
| FileNotFoundError
| PermissionError
| RecipientsMismatchError
| NoRecipientsFound
| DecryptionFailed
| EncryptionFailed
| PayloadParseError
| CalledProcessError (returncode : Z) (stdout stderr : string)
| IndexError
| AttributeError
| TypeError
| UnicodeDecodeError
| ReError
| NotImplementedError
| Timeout.

(** ** The state-and-exception monad *)

Definition M (S A : Type) : Type := S -> S * (exn + A).

Definition ret {S A} (a : A) : M S A := fun s => (s, inr a).

Definition raise {S A} (e : exn) : M S A := fun s => (s, inl e).

Definition bind {S A B} (m : M S A) (k : A -> M S B) : M S B :=
  fun s => match m s with
           | (s', inr a) => k a s'
           | (s', inl e) => (s', inl e)
           end.

(** [try: m except h]: the handler table [h] picks the [except] clause for
    the exception raised by [m]; the state reached when the exception was
    raised is kept, as Python keeps every assignment made before it. *)
Definition try_except {S A} (m : M S A) (h : exn -> option (M S A)) : M S A :=
  fun s => match m s with
           | (s', inl e) => match h e with
                            | Some k => k s'
                            | None => (s', inl e)
                            end
           | r => r
           end.

Definition modify {S} (f : S -> S) : M S unit := fun s => (f s, inr tt).

Definition gets {S A} (f : S -> A) : M S A := fun s => (s, inr (f s)).

Declare Scope py_scope.
Delimit Scope py_scope with py.
Notation "x <- m ;; k" := (bind m (fun x => k))
  (at level 100, m at next level, right associativity) : py_scope.
Notation "m ;; k" := (bind m (fun _ => k))
  (at level 100, right associativity) : py_scope.
Local Open Scope py_scope.

(** ** Python built-ins used by the module *)

Module Py.

Definition code (c : ascii) : N := N_of_ascii c.

Definition chr (n : N) : ascii := ascii_of_N n.

Definition between (lo hi : N) (c : ascii) : bool :=
  ((lo <=? code c) && (code c <=? hi))%N.

(** [str.lower]: the ASCII letters are mapped, other bytes are kept. The
    module only compares the result with ASCII constants, which no
    non-ASCII string lowers to. *)
Definition lower_char (c : ascii) : ascii :=
  if between 65 90 c then chr (code c + 32) else c.

Fixpoint lower (s : string) : string :=
  match s with
  | EmptyString => EmptyString
  | String c r => String (lower_char c) (lower r)
  end.

(** Whitespace as [str.isspace] has it. In ASCII: TAB..CR, FS..US and the
    space; beyond ASCII the UTF-8 encodings of U+0085, U+00A0, U+1680,
    U+2000..U+200A, U+2028, U+2029, U+202F, U+205F and U+3000. *)
Definition ascii_space (c : ascii) : bool :=
  between 9 13 c || between 28 32 c.

Definition wide_spaces : list (list N) :=
  [ [194; 133]; [194; 160]; [225; 154; 128];
    [226; 128; 128]; [226; 128; 129]; [226; 128; 130]; [226; 128; 131];
    [226; 128; 132]; [226; 128; 133]; [226; 128; 134]; [226; 128; 135];
    [226; 128; 136]; [226; 128; 137]; [226; 128; 138];
    [226; 128; 168]; [226; 128; 169]; [226; 128; 175];
    [226; 129; 159]; [227; 128; 128] ]%N.

Fixpoint starts_with (p : list N) (s : string) : bool :=
  match p, s with
  | [], _ => true
  | n :: p', String c r => (code c =? n)%N && starts_with p' r
  | _ :: _, EmptyString => false
  end.

(** Number of bytes of the whitespace character [s] starts with; 0 when it
    starts with none. *)
Definition space_width (s : string) : nat :=
  match s with
  | EmptyString => 0%nat
  | String c _ =>
      if ascii_space c then 1%nat
      else match List.find (fun p => starts_with p s) wide_spaces with
           | Some p => List.length p
           | None => 0%nat
           end
  end.

Definition flush (cur : string) (l : list string) : list string :=
  match cur with EmptyString => l | _ => cur :: l end.

(** [str.split()] with no argument: runs of whitespace separate the
    tokens, and no token is empty. [skip] counts the bytes of a wide
    whitespace character that are still to be dropped. *)
Fixpoint split_go (skip : nat) (cur : string) (s : string) : list string :=
  match s with
  | EmptyString => flush cur []
  | String c r =>
      match skip with
      | S k => split_go k cur r
      | O => match space_width s with
             | O => split_go 0 (cur ++ String c EmptyString) r
             | S k => flush cur (split_go k EmptyString r)
             end
      end
  end.

Definition split (s : string) : list string := split_go 0 EmptyString s.

(** [bytes.decode("UTF-8")], strict: the well-formed byte sequences of the
    Unicode standard. [pending] lists the ranges of the continuation bytes
    still expected. *)
Definition utf8_lead (c : ascii) : option (list (N * N)) :=
  let n := code c in
  (if n <=? 127 then Some []
   else if (194 <=? n) && (n <=? 223) then Some [(128, 191)]
   else if n =? 224 then Some [(160, 191); (128, 191)]
   else if (225 <=? n) && (n <=? 236) then Some [(128, 191); (128, 191)]
   else if n =? 237 then Some [(128, 159); (128, 191)]
   else if (238 <=? n) && (n <=? 239) then Some [(128, 191); (128, 191)]
   else if n =? 240 then Some [(144, 191); (128, 191); (128, 191)]
   else if (241 <=? n) && (n <=? 243) then Some [(128, 191); (128, 191); (128, 191)]
   else if n =? 244 then Some [(128, 143); (128, 191); (128, 191)]
   else None)%N.

Fixpoint utf8_go (pending : list (N * N)) (s : string) : bool :=
  match s with
  | EmptyString => match pending with [] => true | _ => false end
  | String c r =>
      match pending with
      | (lo, hi) :: p => between lo hi c && utf8_go p r
      | [] => match utf8_lead c with
              | Some p => utf8_go p r
              | None => false
              end
      end
  end.

Definition decode_utf8 (b : string) : exn + string :=
  if utf8_go [] b then inr b else inl UnicodeDecodeError.

(** [string.printable]: digits, lower case, upper case, punctuation and
    whitespace, in this order. *)
Definition digits : string := "0123456789".
Definition ascii_lowercase : string := "abcdefghijklmnopqrstuvwxyz".
Definition ascii_uppercase : string := "ABCDEFGHIJKLMNOPQRSTUVWXYZ".
Definition punctuation : string :=
  "!" ++ String (chr 34) "#$%&'()*+,-./:;<=>?@[\]^_`{|}~".
Definition whitespace : string :=
  String (chr 32) (String (chr 9) (String (chr 10) (String (chr 13)
    (String (chr 11) (String (chr 12) EmptyString))))).
Definition printable : string :=
  digits ++ ascii_lowercase ++ ascii_uppercase ++ punctuation ++ whitespace.

(** [str.join] with the empty separator, on a list of [str]. *)
Definition join_empty (l : list string) : string :=
  fold_right String.append EmptyString l.

(** ["\n".join(l)]. *)
Definition join_lines (l : list string) : string :=
  String.concat (String (chr 10) EmptyString) l.

End Py.

(** ** The fragment of Python's [re] the module is exercised with

    [re.findall(pattern, text)] is computed here for the patterns built from
    literal characters, [.], character sets [[...]] (ranges, negation) and
    capturing groups [(...)]. Such a pattern matches texts of one fixed
    width, so matching needs no backtracking. Quantifiers, alternation,
    anchors, escapes and non-ASCII bytes are outside the fragment
    ([Beyond]); for them the host's regex engine is consulted, see
    [host]. *)

Module Re.

#[local] Unset Elimination Schemes.
Inductive atom :=
| Lit (c : ascii)
| Dot
| Set_ (negate : bool) (ranges : list (ascii * ascii))
| Group (body : list atom).
#[local] Set Elimination Schemes.

Inductive parsed :=
| Pattern (p : list atom)
| Error            (* [re.error] *)
| Beyond.          (* outside the fragment *)

(** Where the parser is inside a character set, as [sre_parse] reads it:
    [this] has been read and a following [-] may start a range. *)
Inductive set_state :=
| Member                     (* ready to read the next member *)
| Have (this : ascii)        (* [this] read, next character undecided *)
| Dash (this : ascii).       (* [this] and [-] read, [that] expected *)

Inductive mode :=
| Top
| Opened                                        (* just after [[] *)
| InSet (negate : bool) (acc : list (ascii * ascii)) (st : set_state).

Definition char_is c (d : string) : bool :=
  match d with
  | String x EmptyString => Ascii.eqb c x
  | _ => false
  end.

Definition special (c : ascii) : bool :=
  char_is c "\" || char_is c "^" || char_is c "$" || char_is c "*" || char_is c "+" || char_is c "?"
  || char_is c "{" || char_is c "|".

Definition non_ascii (c : ascii) : bool := (128 <=? Py.code c)%N.

Definition dash : ascii := Py.chr 45.

(** [stack] holds the reversed atom lists of the enclosing groups, [cur]
    the reversed atoms of the innermost one. *)
Fixpoint parse_go (m : mode) (stack : list (list atom)) (cur : list atom)
    (s : string) : parsed :=
  match s with
  | EmptyString =>
      match m, stack with
      | Top, [] => Pattern (rev cur)
      | Top, _ :: _ => Error        (* missing ), unterminated subpattern *)
      | _, _ => Error               (* unterminated character set *)
      end
  | String c r =>
      if non_ascii c then Beyond else
      match m with
      | Top =>
          if special c then Beyond
          else if char_is c "[" then parse_go Opened stack cur r
          else if char_is c "(" then parse_go Top (cur :: stack) [] r
          else if char_is c ")" then
            match stack with
            | [] => Error           (* unbalanced parenthesis *)
            | up :: stack' => parse_go Top stack' (Group (rev cur) :: up) r
            end
          else if char_is c "." then parse_go Top stack (Dot :: cur) r
          else parse_go Top stack (Lit c :: cur) r
      | Opened =>
          if char_is c "^" then parse_go (InSet true [] Member) stack cur r
          else if char_is c "\" then Beyond
          else parse_go (InSet false [] (Have c)) stack cur r
      | InSet neg acc Member =>
          if char_is c "]" then
            match acc with
            | [] => parse_go (InSet neg acc (Have c)) stack cur r
            | _ :: _ => parse_go Top stack (Set_ neg (rev acc) :: cur) r
            end
          else if char_is c "\" then Beyond
          else parse_go (InSet neg acc (Have c)) stack cur r
      | InSet neg acc (Have this) =>
          if char_is c "-" then parse_go (InSet neg acc (Dash this)) stack cur r
          else if char_is c "]" then
            parse_go Top stack (Set_ neg (rev ((this, this) :: acc)) :: cur) r
          else if char_is c "\" then Beyond
          else parse_go (InSet neg ((this, this) :: acc) (Have c)) stack cur r
      | InSet neg acc (Dash this) =>
          if char_is c "]" then
            parse_go Top stack
              (Set_ neg (rev ((dash, dash) :: (this, this) :: acc)) :: cur) r
          else if char_is c "\" then Beyond
          else if (Py.code c <? Py.code this)%N then Error  (* bad range *)
          else parse_go (InSet neg ((this, c) :: acc) Member) stack cur r
      end
  end.

Definition parse (pattern : string) : parsed := parse_go Top [] [] pattern.

Definition in_set (ranges : list (ascii * ascii)) (c : ascii) : bool :=
  existsb (fun '(lo, hi) => Py.between (Py.code lo) (Py.code hi) c) ranges.

(** A match yields the matched text, the texts of the groups in the order
    of their opening parentheses, and the rest of the subject. *)
Definition hit : Type := string * list string * string.

Definition one (ok : ascii -> bool) (s : string) : option hit :=
  match s with
  | String d r => if ok d then Some (String d EmptyString, [], r) else None
  | EmptyString => None
  end.

Fixpoint match_atom (a : atom) (s : string) : option hit :=
  match a with
  | Lit c => one (Ascii.eqb c) s
  | Dot => one (fun d => negb (Ascii.eqb d (Py.chr 10))) s
  | Set_ neg ranges => one (fun d => xorb neg (in_set ranges d)) s
  | Group body =>
      match
        (fix seq (l : list atom) (s : string) : option hit :=
           match l with
           | [] => Some (EmptyString, [], s)
           | a :: l' =>
               match match_atom a s with
               | None => None
               | Some (t1, g1, r1) =>
                   match seq l' r1 with
                   | None => None
                   | Some (t2, g2, r2) => Some (t1 ++ t2, (g1 ++ g2)%list, r2)
                   end
               end
           end) body s
      with
      | Some (t, g, r) => Some (t, t :: g, r)
      | None => None
      end
  end.

Fixpoint match_seq (l : list atom) (s : string) : option hit :=
  match l with
  | [] => Some (EmptyString, [], s)
  | a :: l' =>
      match match_atom a s with
      | None => None
      | Some (t1, g1, r1) =>
          match match_seq l' r1 with
          | None => None
          | Some (t2, g2, r2) => Some (t1 ++ t2, (g1 ++ g2)%list, r2)
          end
      end
  end.

(** What [findall] returns for one match: the match itself when the
    pattern has no group, the group when it has one, a tuple of the groups
    when it has several. *)
Inductive item :=
| Str (s : string)
| Tuple (l : list string).

Definition item_of (t : string) (groups : list string) : item :=
  match groups with
  | [] => Str t
  | [g] => Str g
  | _ => Tuple groups
  end.

(** The scan of [findall]: non-overlapping matches from left to right; an
    empty match lets the scan advance by one character, and is also tried
    at the end of the subject. [skip] counts the characters of the last
    match that are still to be passed. *)
Fixpoint scan (p : list atom) (skip : nat) (s : string) : list item :=
  match s with
  | EmptyString =>
      match skip, match_seq p EmptyString with
      | O, Some (t, g, _) => [item_of t g]
      | _, _ => []
      end
  | String _ r =>
      match skip with
      | S k => scan p k r
      | O => match match_seq p s with
             | Some (t, g, _) => item_of t g :: scan p (Nat.pred (String.length t)) r
             | None => scan p 0 r
             end
      end
  end.

Inductive result :=
| Found (l : list item)
| Failed.          (* [re.error] *)

Definition findall (beyond : string -> string -> result)
    (pattern subject : string) : result :=
  match parse pattern with
  | Pattern p => Found (scan p 0 subject)
  | Error => Failed
  | Beyond => beyond pattern subject
  end.

End Re.

(** ** The host: what the module reads from its environment

    The declared recipients of a slug are the result of the recipient
    resolver's walk over the [.gpg-id] files, which the module only reads.
    [run_process] stands for [subprocess.run] on an argument vector,
    [entropy] for the operating system's random source behind the [secrets]
    module, [lock_busy] for the other holders of the lock file of a slug at
    each poll, [re_beyond] for [re.findall] on the patterns outside the
    fragment of [Re]. *)

Inductive completed :=
| Exited (returncode : Z) (stdout stderr : string)
| NotFound            (* the program does not exist *)
| NotPermitted.       (* the program may not be executed *)

Record host := {
  has_lib : bool;
  declared : gmap string (list string);
  public_keys : list string;
  secret_keys : list string;
  run_process : list string -> completed;
  entropy : nat -> nat;
  lock_busy : string -> nat -> bool;
  re_beyond : string -> string -> Re.result
}.

(** ** SecretGenerator *)

Inductive data_type := Plain | Yaml | Json.

(** The keyword arguments [main] constructs the generator with. *)
Record kwargs := {
  kw_data_type : data_type;
  kw_binary : option string;
  kw_length : Z;
  kw_letter_pattern : string;
  kw_user_supplied_secret : option string
}.

Record SecretGenerator := {
  secret_type : string;
  gen_kwargs : kwargs
}.

Definition ALLOWED_SECRET_TYPES : list string :=
  ["random"; "binary"; "user_supplied"].

Definition SecretGenerator_init (secret_type : string) (kw : kwargs)
    : exn + SecretGenerator :=
  let t := Py.lower secret_type in
  if existsb (String.eqb t) ALLOWED_SECRET_TYPES
  then inr {| secret_type := t; gen_kwargs := kw |}
  else inl NotImplementedError.

(** The generator's only state is the number of random draws made so far. *)
Definition G (A : Type) : Type := M nat A.

(** [secrets.choice(seq)]. *)
Definition choice {A} (h : host) (seq : list A) : G A :=
  fun drawn =>
    match nth_error seq (entropy h drawn mod List.length seq) with
    | Some x => (S drawn, inr x)
    | None => (drawn, inl IndexError)
    end.

(** [[secrets.choice(seq) for i in range(n)]]. *)
Fixpoint choices {A} (h : host) (seq : list A) (n : nat) : G (list A) :=
  match n with
  | O => ret []
  | S n' => x <- choice h seq ;; l <- choices h seq n' ;; ret (x :: l)
  end.

(** [str.join] with the empty separator: every item has to be a [str]. *)
Fixpoint join (items : list Re.item) : exn + string :=
  match items with
  | [] => inr EmptyString
  | Re.Str s :: l => match join l with
                     | inr r => inr (s ++ r)
                     | inl e => inl e
                     end
  | Re.Tuple _ :: _ => inl TypeError
  end.

Definition of_sum {S A} (x : exn + A) : M S A :=
  match x with inr a => ret a | inl e => raise e end.

Definition randomSecret (h : host) (length : Z) (letter_pattern : string)
    : G string :=
  match Re.findall (re_beyond h) letter_pattern Py.printable with
  | Re.Failed => raise ReError
  | Re.Found characters =>
      picked <- choices h characters (Z.to_nat length) ;;
      of_sum (join picked)
  end.

Definition binarySecret (h : host) (binary : option string) : G string :=
  match binary with
  | None => raise AttributeError
  | Some cmd =>
      match Py.split cmd with
      | [] => raise IndexError
      | argv =>
          match run_process h argv with
          | NotFound => raise FileNotFoundError
          | NotPermitted => raise PermissionError
          | Exited rc out err =>
              if rc =? 0 then of_sum (Py.decode_utf8 out)
              else raise (CalledProcessError rc out err)
          end
      end
  end.

Definition userSuppliedSecret (user_supplied_secret : option string)
    : G (option string) :=
  ret user_supplied_secret.

(** The value is a [str], or [None] when the user supplied nothing. *)
Definition getSecret (h : host) (g : SecretGenerator) : G (option string) :=
  let kw := gen_kwargs g in
  if String.eqb (secret_type g) "random" then
    s <- randomSecret h (kw_length kw) (kw_letter_pattern kw) ;; ret (Some s)
  else if String.eqb (secret_type g) "binary" then
    s <- binarySecret h (kw_binary kw) ;; ret (Some s)
  else if String.eqb (secret_type g) "user_supplied" then
    userSuppliedSecret (kw_user_supplied_secret kw)
  else raise NotImplementedError.

(** ** Payload codec *)

(** Modelled from the spec: the payload codec of [gpg_utils.py] (section
    4.4), which is not part of the sources at hand. It is taken as an
    interface: the values a secret can be (a [str], [None], or a tree of
    maps, sequences and scalars), how they are encoded for a data type, and
    the laws the specification gives: [plain] is a pass-through that cannot
    fail, and what [encode] produces for a structured type [decode] parses
    back to an equal value. *)
Class Codec := {
  value : Type;
  text : string -> value;
  none : value;
  encode : data_type -> value -> string;
  decode : data_type -> string -> option value;
  decode_plain : forall b, decode Plain b = Some (text b);
  encode_plain : forall s, encode Plain (text s) = s;
  decode_encode : forall t v, t <> Plain -> decode t (encode t v) = Some v
}.

(** What [result["secret"]] holds for a generated secret. *)
Definition generated `{Codec} (s : option string) : value :=
  match s with Some t => text t | None => none end.

(** ** The secret store *)

Record envelope := {
  env_recipients : list string;
  env_payload : string
}.

Inductive event :=
| ReadActual (slug : string)       (* get_recipients_from_encrypted_file *)
| ReadDeclared (slug : string)     (* get_recipients *)
| Get (slug : string) (check_recipients : bool)
| Put (slug : string)
| Remove (slug : string).

(** The mutable part of the machine: the envelopes on disk, the number of
    random draws made, every call of the store (latest first), and what was
    handed to [module.log] and [module.warn] (latest first). *)
Record machine := {
  envelopes : gmap string envelope;
  drawn : nat;
  history : list event;
  logged : list string;
  warned : list string
}.

Definition with_envelopes (f : gmap string envelope -> gmap string envelope)
    (m : machine) : machine :=
  {| envelopes := f (envelopes m); drawn := drawn m; history := history m;
     logged := logged m; warned := warned m |}.

Definition with_drawn (n : nat) (m : machine) : machine :=
  {| envelopes := envelopes m; drawn := n; history := history m;
     logged := logged m; warned := warned m |}.

Definition record (e : event) (m : machine) : machine :=
  {| envelopes := envelopes m; drawn := drawn m; history := e :: history m;
     logged := logged m; warned := warned m |}.

Definition log_message (s : string) (m : machine) : machine :=
  {| envelopes := envelopes m; drawn := drawn m; history := history m;
     logged := s :: logged m; warned := warned m |}.

Definition warn_message (s : string) (m : machine) : machine :=
  {| envelopes := envelopes m; drawn := drawn m; history := history m;
     logged := logged m; warned := s :: warned m |}.

Definition list_eqb (a b : list string) : bool :=
  bool_decide (a = b).

Definition holds (keys : list string) (k : string) : bool :=
  existsb (String.eqb k) keys.

Module SecretStore.

(** Modelled from the spec: [SecretStore.get_recipients_from_encrypted_file]
    of [gpg_utils.py], which is not part of the sources at hand. The
    actual recipients are read from the envelope without decrypting it
    (section 4.3); a slug without envelope is the recoverable
    [EnvelopeNotFound] of section 7, which [main] catches as
    [FileNotFoundError]. *)
Definition get_recipients_from_encrypted_file (slug : string)
    : M machine (list string) :=
  modify (record (ReadActual slug)) ;;
  env <- gets (fun m => envelopes m !! slug) ;;
  match env with
  | None => raise FileNotFoundError
  | Some e => ret (env_recipients e)
  end.

(** Modelled from the spec: [SecretStore.get_recipients] of
    [gpg_utils.py], the recipient resolver of section 4.2, with the walk
    over the directories abstracted into its result per slug;
    [NoRecipientsFound] when no ancestor declares recipients. *)
Definition get_recipients (h : host) (slug : string)
    : M machine (list string) :=
  modify (record (ReadDeclared slug)) ;;
  match declared h !! slug with
  | None => raise NoRecipientsFound
  | Some ds => ret ds
  end.

(** Modelled from the spec: the [decrypt] of section 4.3, which fails when
    no usable private key is present, that is when the private key of none
    of the envelope's recipients is at hand. *)
Definition has_private_key (h : host) (recipients : list string) : bool :=
  existsb (holds (secret_keys h)) recipients.

Definition can_decrypt (h : host) (e : envelope) : bool :=
  has_private_key h (env_recipients e).

Definition decrypt (h : host) (e : envelope) : exn + string :=
  if can_decrypt h e then inr (env_payload e) else inl DecryptionFailed.

(** Modelled from the spec: the [encrypt] of section 4.3, which fails when
    a recipient key is not in the keyring; encrypting for no recipient is
    never valid (section 4.2). *)
Definition can_encrypt (h : host) (recipients : list string) : bool :=
  match recipients with
  | [] => false
  | _ => forallb (holds (public_keys h)) recipients
  end.

Definition encrypt (h : host) (payload : string) (recipients : list string)
    : exn + envelope :=
  if can_encrypt h recipients
  then inr {| env_recipients := recipients; env_payload := payload |}
  else inl EncryptionFailed.

(** Modelled from the spec: [SecretStore.get] of [gpg_utils.py] (section
    4.6, step 3): the envelope has to exist; unless [check_recipients] is
    off, its actual recipients have to be the declared ones, else
    [RecipientsMismatchError]; then decrypt and decode per data type. *)
Definition get `{Codec} (h : host) (slug : string) (dt : data_type)
    (check_recipients : bool) : M machine value :=
  modify (record (Get slug check_recipients)) ;;
  env <- gets (fun m => envelopes m !! slug) ;;
  match env with
  | None => raise FileNotFoundError
  | Some e =>
      (if check_recipients then
         match declared h !! slug with
         | None => raise NoRecipientsFound
         | Some ds => if list_eqb (env_recipients e) ds then ret tt
                      else raise RecipientsMismatchError
         end
       else ret tt) ;;
      payload <- of_sum (decrypt h e) ;;
      match decode dt payload with
      | Some v => ret v
      | None => raise PayloadParseError
      end
  end.

(** Modelled from the spec: [SecretStore.put] of [gpg_utils.py] (section
    3, Secret Envelope, and section 4.6): encode per data type, encrypt for
    the declared recipients, create or overwrite the envelope. A failure
    leaves the envelope as it was. *)
Definition put `{Codec} (h : host) (slug : string) (data : value)
    (dt : data_type) : M machine unit :=
  modify (record (Put slug)) ;;
  match declared h !! slug with
  | None => raise NoRecipientsFound
  | Some ds =>
      e <- of_sum (encrypt h (encode dt data) ds) ;;
      modify (with_envelopes (insert slug e))
  end.

(** Modelled from the spec: [SecretStore.remove] of [gpg_utils.py]
    (section 3: the envelope is deleted on [remove]); a slug without
    envelope is the recoverable [EnvelopeNotFound]. *)
Definition remove (slug : string) : M machine unit :=
  modify (record (Remove slug)) ;;
  env <- gets (fun m => envelopes m !! slug) ;;
  match env with
  | None => raise FileNotFoundError
  | Some _ => modify (with_envelopes (delete slug))
  end.

End SecretStore.

(** ** The per-slug file lock

    [FileLock(path)] is built without a [timeout], so the lock carries the
    library's default of -1 second, and [with lock:] calls [acquire] with
    it. The loop of [acquire], with time counted in milliseconds and one
    poll every [poll_interval]: take the lock if it is free; otherwise raise
    [Timeout] when [0 <= timeout < elapsed]; otherwise sleep and poll
    again. [fuel] bounds the number of polls looked at; [Waiting] says the
    caller is still blocked after them. *)

Module FileLock.

Inductive acquired :=
| Locked (polls : nat)
| TimedOut
| Waiting.

Definition default_timeout : Z := -1000.
Definition poll_interval : Z := 50.

Fixpoint acquire_from (busy : nat -> bool) (timeout : Z) (k fuel : nat)
    : acquired :=
  match fuel with
  | O => Waiting
  | S fuel' =>
      if negb (busy k) then Locked k
      else if (0 <=? timeout) && (timeout <? poll_interval * Z.of_nat k)
      then TimedOut
      else acquire_from busy timeout (S k) fuel'
  end.

Definition acquire (busy : nat -> bool) (timeout : Z) (fuel : nat)
    : acquired :=
  acquire_from busy timeout 0 fuel.

End FileLock.

(** ** The module's arguments, its result and its outcome *)

Inductive desired := present | absent.

Inductive secret_choice := random | binary | user_supplied.

Definition choice_name (c : secret_choice) : string :=
  match c with
  | random => "random"
  | binary => "binary"
  | user_supplied => "user_supplied"
  end.

(** [module.params], after Ansible has validated the choices and filled in
    the defaults. The configuration of the store (paths, keyring) is what
    [host] and [machine] describe. *)
Module Params.
Record t := {
  state : desired;
  password_slug : string;
  data_type : data_type;
  overwrite : bool;
  secret_type : secret_choice;
  secret_binary : option string;
  secret_length : Z;
  secret_pattern : string;
  user_supplied_secret : option string
}.

End Params.

Record AnsibleModule := {
  params : Params.t;
  check_mode : bool
}.

(** The [result] dictionary while [main] fills it in; [action] is a key that
    exists only once it has been assigned. *)
Module Result.
Section Fields.
Context `{Codec}.

Record t := {
  changed : bool;
  message : string;
  warning : string;
  password_slug : string;
  secret : value;
  action : option string;
  before : list string;
  after : list string
}.

Definition set_changed (b : bool) (r : t) : t :=
  {| changed := b; message := message r; warning := warning r;
     password_slug := password_slug r; secret := secret r;
     action := action r; before := before r; after := after r |}.

Definition set_message (s : string) (r : t) : t :=
  {| changed := changed r; message := s; warning := warning r;
     password_slug := password_slug r; secret := secret r;
     action := action r; before := before r; after := after r |}.

Definition set_warning (s : string) (r : t) : t :=
  {| changed := changed r; message := message r; warning := s;
     password_slug := password_slug r; secret := secret r;
     action := action r; before := before r; after := after r |}.

Definition set_secret (v : value) (r : t) : t :=
  {| changed := changed r; message := message r; warning := warning r;
     password_slug := password_slug r; secret := v;
     action := action r; before := before r; after := after r |}.

Definition set_action (a : string) (r : t) : t :=
  {| changed := changed r; message := message r; warning := warning r;
     password_slug := password_slug r; secret := secret r;
     action := Some a; before := before r; after := after r |}.

Definition set_before (l : list string) (r : t) : t :=
  {| changed := changed r; message := message r; warning := warning r;
     password_slug := password_slug r; secret := secret r;
     action := action r; before := l; after := after r |}.

Definition set_after (l : list string) (r : t) : t :=
  {| changed := changed r; message := message r; warning := warning r;
     password_slug := password_slug r; secret := secret r;
     action := action r; before := before r; after := l |}.

Definition init (slug : string) : t :=
  {| changed := false; message := EmptyString; warning := EmptyString;
     password_slug := slug; secret := text EmptyString; action := None;
     before := []; after := [] |}.
End Fields.
End Result.

(** What [exit_json] is called with: the recipient lists of the diff have
    become texts, one key per line. *)
Module Output.
Section Fields.
Context `{Codec}.

Record t := {
  changed : bool;
  message : string;
  warning : string;
  password_slug : string;
  secret : value;
  action : option string;
  before_header : string;
  after_header : string;
  before : string;
  after : string
}.
End Fields.
End Output.

(** ["\n".join(recipients) + "\n"]. *)
Definition lines (recipients : list string) : string :=
  Py.join_lines recipients ++ String (Py.chr 10) EmptyString.

Inductive outcome `{Codec} :=
| exit_json (r : Output.t)
| fail_json (msg : string)
| raised (e : exn).

(** ** main *)

Section Main.
Context `{Codec}.

(** [main] runs on the machine together with its [result] dictionary. *)
Definition Run (A : Type) : Type := M (machine * Result.t) A.

Definition store {A} (m : M machine A) : Run A :=
  fun '(s, r) => let '(s', x) := m s in ((s', r), x).

Definition generate {A} (g : G A) : Run A :=
  fun '(s, r) => let '(n, x) := g (drawn s) in ((with_drawn n s, r), x).

Definition assign (f : Result.t -> Result.t) : Run unit :=
  fun '(s, r) => ((s, f r), inr tt).

Definition result : Run Result.t := fun '(s, r) => ((s, r), inr r).

(** Lines 337 to 374: decide what the secret is. [store.get] is called
    without [check_recipients] in the [try] block, hence with the check on:
    the handler of [RecipientsMismatchError] is the one to switch it off. *)
Definition present_decide (h : host) (p : Params.t)
    (secretGenerator : SecretGenerator) : Run unit :=
  let password_slug := Params.password_slug p in
  let data_type := Params.data_type p in
  try_except
    (rs <- store (SecretStore.get_recipients_from_encrypted_file password_slug) ;;
     assign (Result.set_before rs) ;;
     (if negb (Params.overwrite p) then
        v <- store (SecretStore.get h password_slug data_type true) ;;
        assign (Result.set_secret v) ;;
        assign (Result.set_changed false)
      else
        assign (Result.set_message
                  "Secret rotation requested: rotating, if possible.") ;;
        s <- generate (getSecret h secretGenerator) ;;
        assign (Result.set_secret (generated s)) ;;
        assign (Result.set_action "update") ;;
        assign (Result.set_changed true)) ;;
     r <- result ;;
     assign (Result.set_after (Result.before r)))
    (fun e =>
       match e with
       | FileNotFoundError => Some
           (assign (Result.set_message "Secret not found! Generation new secret") ;;
            s <- generate (getSecret h secretGenerator) ;;
            assign (Result.set_secret (generated s)) ;;
            assign (Result.set_before []) ;;
            ds <- store (SecretStore.get_recipients h password_slug) ;;
            assign (Result.set_after ds) ;;
            assign (Result.set_action "add") ;;
            assign (Result.set_changed true))
       | RecipientsMismatchError => Some
           (assign (Result.set_warning "Secret-Recipient-Mismatch! Re-encrypting.") ;;
            v <- store (SecretStore.get h password_slug data_type false) ;;
            assign (Result.set_secret v) ;;
            rs <- store (SecretStore.get_recipients_from_encrypted_file password_slug) ;;
            assign (Result.set_before rs) ;;
            ds <- store (SecretStore.get_recipients h password_slug) ;;
            assign (Result.set_after ds) ;;
            assign (Result.set_action "update") ;;
            assign (Result.set_changed true))
       | _ => None
       end).

(** Lines 376 to 382: write the envelope and read its recipients back. *)
Definition present_commit (h : host) (md : AnsibleModule) : Run unit :=
  let password_slug := Params.password_slug (params md) in
  let data_type := Params.data_type (params md) in
  r <- result ;;
  if Result.changed r && negb (check_mode md) then
    store (SecretStore.put h password_slug (Result.secret r) data_type) ;;
    rs <- store (SecretStore.get_recipients_from_encrypted_file password_slug) ;;
    assign (Result.set_after rs)
  else ret tt.

(** Lines 384 to 402. *)
Definition absent_branch (h : host) (md : AnsibleModule) : Run unit :=
  let password_slug := Params.password_slug (params md) in
  let data_type := Params.data_type (params md) in
  try_except
    ((if check_mode md then
        store (SecretStore.get h password_slug data_type true) ;; ret tt
      else
        store (SecretStore.remove password_slug)) ;;
     assign (Result.set_message "Secret will be deleted!") ;;
     rs <- store (SecretStore.get_recipients_from_encrypted_file password_slug) ;;
     assign (Result.set_before rs) ;;
     assign (Result.set_after []) ;;
     assign (Result.set_action "remove") ;;
     assign (Result.set_changed true))
    (fun e =>
       match e with
       | FileNotFoundError => Some
           (assign (Result.set_message "Secret didn't exist") ;;
            assign (Result.set_before []) ;;
            assign (Result.set_after []) ;;
            assign (Result.set_changed false))
       | _ => None
       end).

(** The keyword arguments [main] builds the generator with. *)
Definition kwargs_of (p : Params.t) : kwargs :=
  {| kw_data_type := Params.data_type p;
     kw_binary := Params.secret_binary p;
     kw_length := Params.secret_length p;
     kw_letter_pattern := Params.secret_pattern p;
     kw_user_supplied_secret := Params.user_supplied_secret p |}.

(** The body of [with lock:]. *)
Definition locked (h : host) (md : AnsibleModule)
    (secretGenerator : SecretGenerator) : Run unit :=
  match Params.state (params md) with
  | present => present_decide h (params md) secretGenerator ;; present_commit h md
  | absent => absent_branch h md
  end.

(** Lines 404 to 416: log, warn, render the diff and leave. *)
Definition report (s : machine) (r : Result.t) : machine * outcome :=
  let s1 := if String.eqb (Result.message r) EmptyString then s
            else log_message (Result.message r) s in
  let s2 := if String.eqb (Result.warning r) EmptyString then s1
            else warn_message (Result.warning r) s1 in
  let header := Result.password_slug r ++ " gpg recipients" in
  (s2, exit_json
         {| Output.changed := Result.changed r;
            Output.message := Result.message r;
            Output.warning := Result.warning r;
            Output.password_slug := Result.password_slug r;
            Output.secret := Result.secret r;
            Output.action := Result.action r;
            Output.before_header := header;
            Output.after_header := header;
            Output.before := lines (Result.before r);
            Output.after := lines (Result.after r) |}).

(** The beginning of the text [missing_required_lib] builds. *)
Definition missing_required_lib : string :=
  "Failed to import the required Python library (python-gnupg)".

(** [main]: [None] when the lock has not been obtained within [fuel]
    polls, the caller being still blocked in [acquire]. An exception that
    leaves [with lock:] leaves [main]. *)
Definition main (h : host) (md : AnsibleModule) (fuel : nat) (s : machine)
    : option (machine * outcome) :=
  if negb (has_lib h) then Some (s, fail_json missing_required_lib) else
  let p := params md in
  match SecretGenerator_init (choice_name (Params.secret_type p))
          (kwargs_of p) with
  | inl e => Some (s, raised e)
  | inr secretGenerator =>
      match FileLock.acquire (lock_busy h (Params.password_slug p))
              FileLock.default_timeout fuel with
      | FileLock.Waiting => None
      | FileLock.TimedOut => Some (s, raised Timeout)
      | FileLock.Locked _ =>
          match locked h md secretGenerator
                  (s, Result.init (Params.password_slug p)) with
          | ((s', _), inl e) => Some (s', raised e)
          | ((s', r), inr _) => Some (report s' r)
          end
      end
  end.

End Main.

(** ** A codec of scalar payloads

    An instance of the codec interface, used to run the module on concrete
    stores: a value is a [str] or [None]; the structured types write a
    one-letter tag before the text and reject what carries none. *)

Inductive scalar :=
| SNone
| SStr (s : string).

Definition scalar_encode (t : data_type) (v : scalar) : string :=
  match t, v with
  | Plain, SStr s => s
  | Plain, SNone => "None"
  | _, SStr s => String "S" s
  | _, SNone => "N"
  end.

Definition scalar_parse (b : string) : option scalar :=
  match b with
  | String c r =>
      if Ascii.eqb c "S" then Some (SStr r)
      else if Ascii.eqb c "N" then
        match r with EmptyString => Some SNone | _ => None end
      else None
  | EmptyString => None
  end.

Definition scalar_decode (t : data_type) (b : string) : option scalar :=
  match t with
  | Plain => Some (SStr b)
  | _ => scalar_parse b
  end.

#[export] Instance scalar_codec : Codec.
Proof.
  refine {| value := scalar; text := SStr; none := SNone;
            encode := scalar_encode; decode := scalar_decode;
            decode_plain := fun b => eq_refl;
            encode_plain := fun s => eq_refl;
            decode_encode := _ |}.
  intros t v Ht. destruct t, v; try congruence; reflexivity.
Defined.

(** ** Notions the properties are stated with *)

(** The generator [main] obtains from [SecretGenerator]: the choices Ansible
    admits are all allowed types, in lower case already. *)
Definition generator_of (p : Params.t) : SecretGenerator :=
  {| secret_type := choice_name (Params.secret_type p);
     gen_kwargs := kwargs_of p |}.

(** The library is installed and the lock of the slug is obtained within
    [fuel] polls. *)
Definition ready (h : host) (md : AnsibleModule) (fuel : nat) : bool :=
  has_lib h &&
  match FileLock.acquire (lock_busy h (Params.password_slug (params md)))
          FileLock.default_timeout fuel with
  | FileLock.Locked _ => true
  | _ => false
  end.

(** How [main] leaves [with lock:]. *)
Definition finish `{Codec} (x : machine * Result.t * (exn + unit))
    : option (machine * outcome) :=
  match x with
  | ((s', _), inl e) => Some (s', raised e)
  | ((s', r), inr _) => Some (report s' r)
  end.



(** [only_reads old new]: the history [new] extends [old] by calls of the
    store that read, none that writes or deletes. *)
Inductive only_reads (old : list event) : list event -> Prop :=
| reads_none : only_reads old old
| reads_actual slug l :
    only_reads old l -> only_reads old (ReadActual slug :: l)
| reads_declared slug l :
    only_reads old l -> only_reads old (ReadDeclared slug :: l)
| reads_get slug c l :
    only_reads old l -> only_reads old (Get slug c :: l).

(** A computation is quiet when it leaves every envelope as it is and calls
    the store for reading only. *)
Definition quiet_on {A} (m : M machine A) : Prop :=
  forall s s' x, m s = (s', x) ->
    envelopes s' = envelopes s /\ only_reads (history s) (history s').

Definition quiet `{Codec} {A} (m : Run A) : Prop :=
  forall s r s' r' x, m (s, r) = ((s', r'), x) ->
    envelopes s' = envelopes s /\ only_reads (history s) (history s').

(** ** Concrete hosts and stores

    A store whose [.gpg-id] declares the recipients A and C for the slug
    [servers/prod/db]; the caller holds the private key of A. [stale] holds
    an envelope still encrypted for A and B; [vacant] holds none. *)

Definition db : string := "servers/prod/db".

Definition programs (argv : list string) : completed :=
  match argv with
  | [prog; arg] => if String.eqb prog "echo" then Exited 0 arg EmptyString else NotFound
  | [prog] => if String.eqb prog "false" then Exited 1 EmptyString "boom" else NotFound
  | _ => NotFound
  end.

Definition office : host :=
  {| has_lib := true;
     declared := {[ db := ["A"; "C"] ]};
     public_keys := ["A"; "B"; "C"];
     secret_keys := ["A"];
     run_process := programs;
     entropy := fun i => (7 * i + 3)%nat;
     lock_busy := fun _ _ => false;
     re_beyond := fun _ _ => Re.Failed |}.

(** The same host while another process keeps the lock of every slug. *)
Definition contended : host :=
  {| has_lib := true;
     declared := declared office;
     public_keys := public_keys office;
     secret_keys := secret_keys office;
     run_process := programs;
     entropy := entropy office;
     lock_busy := fun _ _ => true;
     re_beyond := re_beyond office |}.

Definition vacant : machine :=
  {| envelopes := ∅; drawn := 0; history := []; logged := []; warned := [] |}.

Definition stale : machine :=
  {| envelopes :=
       {[ db := {| env_recipients := ["A"; "B"]; env_payload := "hunter2" |} ]};
     drawn := 0; history := []; logged := []; warned := [] |}.

Definition request (st : desired) (ow : bool) (kind : secret_choice)
    (cmd : option string) (literal : option string) : Params.t :=
  {| Params.state := st; Params.password_slug := db;
     Params.data_type := Plain; Params.overwrite := ow;
     Params.secret_type := kind; Params.secret_binary := cmd;
     Params.secret_length := 5; Params.secret_pattern := "[0-9]";
     Params.user_supplied_secret := literal |}.

Definition task (st : desired) (ow : bool) (check : bool) : AnsibleModule :=
  {| params := request st ow random None None; check_mode := check |}.

(** [stale] once [present] has reconciled its envelope on [office], and
    what the module then reports. *)
Definition reconciled : machine :=
  {| envelopes :=
       {[ db := {| env_recipients := ["A"; "C"]; env_payload := "hunter2" |} ]};
     drawn := 0;
     history := [ReadActual db; Put db; ReadDeclared db; ReadActual db;
                 Get db false; Get db true; ReadActual db];
     logged := [];
     warned := ["Secret-Recipient-Mismatch! Re-encrypting."] |}.

Definition reconciled_report : Output.t :=
  {| Output.changed := true;
     Output.message := EmptyString;
     Output.warning := "Secret-Recipient-Mismatch! Re-encrypting.";
     Output.password_slug := db;
     Output.secret := text "hunter2";
     Output.action := Some "update";
     Output.before_header := db ++ " gpg recipients";
     Output.after_header := db ++ " gpg recipients";
     Output.before := lines ["A"; "B"];
     Output.after := lines ["A"; "C"] |}.


(** A rotation of the secret by the output of a command. *)
Definition rotate_with (cmd : string) : AnsibleModule :=
  {| params := request present true binary (Some cmd) None;
     check_mode := false |}.

(** The user is to supply the secret and supplies none. *)
Definition unsupplied : AnsibleModule :=
  {| params := request present false user_supplied None None;
     check_mode := false |}.

(** Every character of [s] passes [ok]. *)
Fixpoint all_chars (ok : ascii -> bool) (s : string) : bool :=
  match s with
  | EmptyString => true
  | String c r => ok c && all_chars ok r
  end.



(** The [i]-th element [secrets.choice] picks from [alphabet], counted from
    the first draw of the host's random source. *)
Definition pick (h : host) (alphabet : list string) (i : nat) : string :=
  nth (entropy h i mod List.length alphabet) alphabet EmptyString.




(** ** Notions for the further properties *)

(** [office] with a keyring that holds no private key. *)
Definition keyless : host :=
  {| has_lib := true;
     declared := declared office;
     public_keys := public_keys office;
     secret_keys := [];
     run_process := programs;
     entropy := entropy office;
     lock_busy := lock_busy office;
     re_beyond := re_beyond office |}.

(** The module asked for the same operation with other arguments for the
    generation of secrets. *)
Definition with_generation (kind : secret_choice) (cmd : option string)
    (len : Z) (pattern : string) (literal : option string)
    (md : AnsibleModule) : AnsibleModule :=
  {| params :=
       {| Params.state := Params.state (params md);
          Params.password_slug := Params.password_slug (params md);
          Params.data_type := Params.data_type (params md);
          Params.overwrite := Params.overwrite (params md);
          Params.secret_type := kind;
          Params.secret_binary := cmd;
          Params.secret_length := len;
          Params.secret_pattern := pattern;
          Params.user_supplied_secret := literal |};
     check_mode := check_mode md |}.

(** The envelopes of [s'] are those of [s], the one of [slug] apart. *)
Definition elsewhere_untouched (slug : string) (s s' : machine) : Prop :=
  forall k, k <> slug -> envelopes s' !! k = envelopes s !! k.

(** A computation is steady for a relation between machines when the
    machine it leaves is related to the one it started on. *)
Definition steady_on {A} (R : machine -> machine -> Prop) (m : M machine A)
    : Prop :=
  forall s s' x, m s = (s', x) -> R s s'.

Definition steady `{Codec} {A} (R : machine -> machine -> Prop) (m : Run A)
    : Prop :=
  forall s r s' r' x, m (s, r) = ((s', r'), x) -> R s s'.

(** The texts [main] assigns to [message] and to [warning]. *)
Definition rotation_requested : string :=
  "Secret rotation requested: rotating, if possible.".
Definition not_found : string := "Secret not found! Generation new secret".
Definition will_be_deleted : string := "Secret will be deleted!".
Definition did_not_exist : string := "Secret didn't exist".
Definition mismatch_warning : string :=
  "Secret-Recipient-Mismatch! Re-encrypting.".

(** What a pattern made of one character set accepts, and the characters of
    [string.printable]. *)
Definition set_accepts (negate : bool) (ranges : list (ascii * ascii))
    (c : ascii) : bool :=
  xorb negate (Re.in_set ranges c).

Definition printable_char (c : ascii) : bool :=
  existsb (Ascii.eqb c) (list_ascii_of_string Py.printable).

(** The pattern is one character set, alone or in one group. *)
Definition one_set (pattern : string) (negate : bool)
    (ranges : list (ascii * ascii)) : Prop :=
  Re.parse pattern = Re.Pattern [Re.Set_ negate ranges]
  \/ Re.parse pattern = Re.Pattern [Re.Group [Re.Set_ negate ranges]].

(** The exceptions each strategy of the generator can raise. *)
Definition random_error (e : exn) : bool :=
  match e with
  | ReError | IndexError | TypeError => true
  | _ => false
  end.

Definition binary_error (e : exn) : bool :=
  match e with
  | AttributeError | IndexError | FileNotFoundError | PermissionError
  | UnicodeDecodeError => true
  | CalledProcessError rc _ _ => negb (rc =? 0)
  | _ => false
  end.

(** [stale] after a rotation whose command exits with status 1, after a
    rotation by five random digits, and after the rehearsal of that
    rotation in check mode. *)
Definition unrotated : machine :=
  {| envelopes := envelopes stale; drawn := 0; history := [ReadActual db];
     logged := []; warned := [] |}.


Definition rotation_report (after : list string) : Output.t :=
  {| Output.changed := true;
     Output.message := rotation_requested;
     Output.warning := EmptyString;
     Output.password_slug := db;
     Output.secret := text "30741";
     Output.action := Some "update";
     Output.before_header := db ++ " gpg recipients";
     Output.after_header := db ++ " gpg recipients";
     Output.before := lines ["A"; "B"];
     Output.after := lines after |}.

Definition is_tuple (i : Re.item) : bool :=
  match i with Re.Tuple _ => true | Re.Str _ => false end.

Definition single (c : ascii) : string := String c EmptyString.

(** The alphabet of a pattern made of one character set: the characters of
    [string.printable] it accepts, in their order there. *)
Definition set_alphabet (negate : bool) (ranges : list (ascii * ascii))
    : list string :=
  map single
    (List.filter (set_accepts negate ranges)
       (list_ascii_of_string Py.printable)).

(** The exception of the binary strategy for a command that is missing or
    blank. *)
Definition no_command_error (cmd : option string) : exn :=
  match cmd with None => AttributeError | Some _ => IndexError end.

Definition blank (cmd : option string) : bool :=
  match cmd with None => true | Some c => all_chars Py.ascii_space c end.

(** A request for a secret of the random kind, and for one produced by a
    command. *)
Definition random_request (len : Z) (pattern : string) : AnsibleModule :=
  {| params :=
       {| Params.state := present; Params.password_slug := db;
          Params.data_type := Plain; Params.overwrite := false;
          Params.secret_type := random; Params.secret_binary := None;
          Params.secret_length := len; Params.secret_pattern := pattern;
          Params.user_supplied_secret := None |};
     check_mode := false |}.

Definition command_request (cmd : option string) : AnsibleModule :=
  {| params := request present false binary cmd None; check_mode := false |}.


(** The texts [main] can hand to [module.log]. *)
Definition log_texts : list string :=
  [rotation_requested; not_found; will_be_deleted; did_not_exist].

(** The module with another check mode. *)
Definition with_check (b : bool) (md : AnsibleModule) : AnsibleModule :=
  {| params := params md; check_mode := b |}.

(** A store whose envelope is encrypted for the declared recipients, and
    that store after [present] has found nothing to do. *)
Definition settled : machine :=
  {| envelopes :=
       {[ db := {| env_recipients := ["A"; "C"]; env_payload := "hunter2" |} ]};
     drawn := 0; history := []; logged := []; warned := [] |}.

Definition kept : machine :=
  {| envelopes := envelopes settled; drawn := 0;
     history := [Get db true; ReadActual db]; logged := []; warned := [] |}.

Definition kept_report : Output.t :=
  {| Output.changed := false;
     Output.message := EmptyString;
     Output.warning := EmptyString;
     Output.password_slug := db;
     Output.secret := text "hunter2";
     Output.action := None;
     Output.before_header := db ++ " gpg recipients";
     Output.after_header := db ++ " gpg recipients";
     Output.before := lines ["A"; "C"];
     Output.after := lines ["A"; "C"] |}.

(** The character set of the module's default pattern. *)
Definition alphanumeric : list (ascii * ascii) :=
  [("A"%char, "Z"%char); ("a"%char, "z"%char); ("0"%char, "9"%char)].

(** * Properties *)

(** ** The built-ins on the module's own examples *)

Example split_ip_a : Py.split "ip a" = ["ip"; "a"].
Proof. reflexivity. Qed.

(** No shell reads the command: what a shell would expand or separate stays
    inside the tokens. *)
Example split_knows_no_shell :
  Py.split "  echo   $HOME;ls>x " = ["echo"; "$HOME;ls>x"].
Proof. reflexivity. Qed.

Example printable_has_100_characters : String.length Py.printable = 100%nat.
Proof. reflexivity. Qed.

Example default_pattern_alphabet :
  Re.findall (re_beyond office) "([A-Za-z0-9])" Py.printable
  = Re.Found
      (map (fun c => Re.Str (String c EmptyString))
         (list_ascii_of_string
            (Py.digits ++ Py.ascii_lowercase ++ Py.ascii_uppercase))).
Proof. reflexivity. Qed.

(** Two groups make [findall] return tuples, which [join] refuses; a
    pattern without match leaves [secrets.choice] nothing to choose from. *)
Example two_groups_raise_type_error :
  randomSecret office 5 "([0-9])([a-z])" 0%nat = (5%nat, inl TypeError).
Proof. reflexivity. Qed.

Example no_match_raises_index_error :
  randomSecret office 5 "%%" 0%nat = (0%nat, inl IndexError).
Proof. reflexivity. Qed.

(** ** Running the module: auxiliary facts *)

Lemma init_choice c kw :
  SecretGenerator_init (choice_name c) kw
  = inr {| secret_type := choice_name c; gen_kwargs := kw |}.
Proof. destruct c; reflexivity. Qed.

Section Running.
Context `{Codec}.

Lemma main_ready h md fuel s :
  ready h md fuel = true ->
  main h md fuel s
  = finish (locked h md (generator_of (params md))
              (s, Result.init (Params.password_slug (params md)))).
Proof.
  unfold ready, main. intros [Hlib Hlock]%andb_true_iff.
  rewrite Hlib, init_choice. cbn [negb].
  destruct (FileLock.acquire _ _ _); try discriminate. reflexivity.
Qed.

End Running.

(** ** Symbolic runs *)

Ltac run :=
  cbv beta iota delta
    [bind try_except store generate assign result ret raise modify gets of_sum
     SecretStore.get_recipients_from_encrypted_file SecretStore.get_recipients
     SecretStore.get SecretStore.put SecretStore.remove
     SecretStore.decrypt SecretStore.encrypt negb andb];
  cbn [envelopes drawn history logged warned record with_envelopes with_drawn
       Result.changed Result.message Result.warning Result.password_slug
       Result.secret Result.action Result.before Result.after
       Result.set_changed Result.set_message Result.set_warning
       Result.set_secret Result.set_action Result.set_before Result.set_after
       Result.init fst snd].

(** [run_with tac]: evaluate as far as possible, using [tac] to rewrite the
    lookups and tests the run gets stuck on. *)
Ltac run_with tac := repeat (progress (run; tac)).

(** Evaluate the report [main] leaves with. *)
Ltac report_out :=
  cbn [finish report Result.message Result.warning Result.changed
       Result.password_slug Result.secret Result.action Result.before
       Result.after Result.set_after Result.set_changed Result.set_action
       Result.set_before Result.set_secret Result.set_message
       Result.set_warning Result.init String.eqb Ascii.eqb Bool.eqb].

Section Present.
Context `{Codec}.


Lemma text_round_trip dt g : decode dt (encode dt (text g)) = Some (text g).
Proof.
  destruct dt; [| apply decode_encode; discriminate ..].
  now rewrite encode_plain, decode_plain.
Qed.

Lemma mismatch_test (a b : list string) : a <> b -> list_eqb a b = false.
Proof. intros Hne. unfold list_eqb. now rewrite bool_decide_eq_false_2. Qed.

Lemma match_test (a : list string) : list_eqb a a = true.
Proof. unfold list_eqb. now rewrite bool_decide_eq_true_2. Qed.


End Present.


Section Idempotence.
Context `{Codec}.

(** The add path: no envelope yet, whatever [overwrite] says. *)
Lemma add_path h md fuel s ds n g :
  let slug := Params.password_slug (params md) in
  let dt := Params.data_type (params md) in
  ready h md fuel = true ->
  Params.state (params md) = present ->
  check_mode md = false ->
  envelopes s !! slug = None ->
  declared h !! slug = Some ds ->
  SecretStore.can_encrypt h ds = true ->
  getSecret h (generator_of (params md)) (drawn s) = (n, inr g) ->
  exists s',
    main h md fuel s
    = Some (s', exit_json
        {| Output.changed := true;
           Output.message := "Secret not found! Generation new secret";
           Output.warning := EmptyString;
           Output.password_slug := slug;
           Output.secret := generated g;
           Output.action := Some "add";
           Output.before_header := slug ++ " gpg recipients";
           Output.after_header := slug ++ " gpg recipients";
           Output.before := lines [];
           Output.after := lines ds |})
    /\ envelopes s'
       = <[slug := {| env_recipients := ds;
                      env_payload := encode dt (generated g) |}]>
           (envelopes s)
    /\ history s'
       = ReadActual slug :: Put slug :: ReadDeclared slug
           :: ReadActual slug :: history s.
Proof.
  intros slug dt Hready Hst Hck He Hds Henc Hgen. subst slug dt.
  rewrite main_ready by exact Hready.
  unfold locked, present_decide, present_commit. rewrite Hst, Hck.
  run_with ltac:(rewrite ?He, ?Hds, ?Henc, ?Hgen, ?lookup_insert_eq).
  report_out. eexists. split; [reflexivity |]. cbn. auto.
Qed.

(** The unchanged path: the envelope is there, encrypted for the declared
    recipients, and no overwrite is asked for. *)
Lemma unchanged_path h md fuel s e v :
  let slug := Params.password_slug (params md) in
  let dt := Params.data_type (params md) in
  ready h md fuel = true ->
  Params.state (params md) = present ->
  Params.overwrite (params md) = false ->
  envelopes s !! slug = Some e ->
  declared h !! slug = Some (env_recipients e) ->
  SecretStore.can_decrypt h e = true ->
  decode dt (env_payload e) = Some v ->
  exists s',
    main h md fuel s
    = Some (s', exit_json
        {| Output.changed := false;
           Output.message := EmptyString;
           Output.warning := EmptyString;
           Output.password_slug := slug;
           Output.secret := v;
           Output.action := None;
           Output.before_header := slug ++ " gpg recipients";
           Output.after_header := slug ++ " gpg recipients";
           Output.before := lines (env_recipients e);
           Output.after := lines (env_recipients e) |})
    /\ envelopes s' = envelopes s
    /\ history s' = Get slug true :: ReadActual slug :: history s.
Proof.
  intros slug dt Hready Hst Hov He Hds Hkey Hv. subst slug dt.
  rewrite main_ready by exact Hready.
  unfold locked, present_decide, present_commit. rewrite Hst, Hov.
  run_with ltac:(rewrite ?He, ?Hds, ?match_test, ?Hkey, ?Hv).
  report_out. eexists. split; [reflexivity |]. cbn. auto.
Qed.

(** C2. [present] without overwrite, twice in a row on a slug without
    envelope: the first call adds a generated secret and reports a change,
    the second reports no change and does not write; both return the same
    secret. *)
Theorem present_twice_adds_then_unchanged h md fuel s ds n g :
  let p := params md in
  let slug := Params.password_slug p in
  ready h md fuel = true ->
  Params.state p = present ->
  Params.overwrite p = false ->
  check_mode md = false ->
  envelopes s !! slug = None ->
  declared h !! slug = Some ds ->
  SecretStore.can_encrypt h ds = true ->
  SecretStore.has_private_key h ds = true ->
  getSecret h (generator_of p) (drawn s) = (n, inr (Some g)) ->
  exists s1 o1 s2 o2,
    main h md fuel s = Some (s1, exit_json o1)
    /\ main h md fuel s1 = Some (s2, exit_json o2)
    /\ Output.action o1 = Some "add"
    /\ Output.changed o1 = true
    /\ Output.changed o2 = false
    /\ Output.action o2 = None
    /\ envelopes s2 = envelopes s1
    /\ history s2 = Get slug true :: ReadActual slug :: history s1
    /\ Output.secret o1 = text g
    /\ Output.secret o2 = text g.
Proof.
  intros p slug Hready Hst Hov Hck He Hds Henc Hkey Hgen. subst p slug.
  destruct (add_path h md fuel s ds n (Some g)) as (s1 & Hrun1 & Henv1 & _);
    try assumption.
  set (e := {| env_recipients := ds;
               env_payload := encode (Params.data_type (params md))
                                (generated (Some g)) |}) in Henv1.
  destruct (unchanged_path h md fuel s1 e (text g)) as (s2 & Hrun2 & Henv2 & Hh2);
    try assumption.
  - rewrite Henv1. apply lookup_insert_eq.
  - apply text_round_trip.
  - exists s1; eexists; exists s2; eexists.
    split; [exact Hrun1 |]. split; [exact Hrun2 |]. cbn. auto 10.
Qed.

End Idempotence.

(** On [office], starting from the store without envelope; the secret is the
    five digits the random source draws. *)
Lemma present_twice_adds_then_unchanged_witness :
  exists s1 o1 s2 o2,
    main office (task present false false) 1 vacant = Some (s1, exit_json o1)
    /\ main office (task present false false) 1 s1 = Some (s2, exit_json o2)
    /\ Output.action o1 = Some "add"
    /\ Output.changed o1 = true
    /\ Output.changed o2 = false
    /\ Output.action o2 = None
    /\ envelopes s2 = envelopes s1
    /\ history s2 = Get db true :: ReadActual db :: history s1
    /\ Output.secret o1 = text "30741"
    /\ Output.secret o2 = text "30741".
Proof.
  apply (present_twice_adds_then_unchanged office (task present false false)
           1 vacant ["A"; "C"] 5%nat "30741"); reflexivity.
Defined.

Section Overwrite.
Context `{Codec}.




End Overwrite.


(** ** The lock never times out *)

Lemma acquire_from_default busy k fuel :
  FileLock.acquire_from busy FileLock.default_timeout k fuel
  <> FileLock.TimedOut.
Proof.
  revert k. induction fuel as [| fuel IH]; intros k; cbn.
  - discriminate.
  - destruct (busy k); cbn; [apply IH | discriminate].
Qed.

Lemma acquire_from_busy busy timeout k fuel :
  timeout < 0 ->
  (forall i, (i < fuel)%nat -> busy (k + i)%nat = true) ->
  FileLock.acquire_from busy timeout k fuel = FileLock.Waiting.
Proof.
  intros Hneg. revert k. induction fuel as [| fuel IH]; intros k Hbusy; cbn.
  - reflexivity.
  - pose proof (Hbusy 0%nat ltac:(lia)) as H0.
    rewrite Nat.add_0_r in H0. rewrite H0. cbn.
    replace (0 <=? timeout) with false by (symmetry; apply Z.leb_gt; lia).
    cbn. apply IH. intros i Hi.
    replace (S k + i)%nat with (k + S i)%nat by lia.
    apply Hbusy. lia.
Qed.

Lemma acquire_from_free busy timeout k fuel :
  busy k = false ->
  FileLock.acquire_from busy timeout k (S fuel) = FileLock.Locked k.
Proof. intros Hfree. cbn. now rewrite Hfree. Qed.

(** ** What leaves [main] *)

Section Leaving.
Context `{Codec}.

Lemma ready_of_some h md fuel s x :
  has_lib h = true -> main h md fuel s = Some x -> ready h md fuel = true.
Proof.
  unfold main, ready. intros -> . cbn [negb andb]. rewrite init_choice.
  pose proof (acquire_from_default
                (lock_busy h (Params.password_slug (params md))) 0 fuel) as Hno.
  unfold FileLock.acquire.
  destruct (FileLock.acquire_from _ _ _ _); congruence.
Qed.

Lemma ready_of_exit h md fuel s s' o :
  main h md fuel s = Some (s', exit_json o) -> ready h md fuel = true.
Proof.
  intros Hrun. destruct (has_lib h) eqn:Hlib.
  - eapply ready_of_some; eassumption.
  - unfold main in Hrun. rewrite Hlib in Hrun. discriminate.
Qed.

Lemma report_machine s r :
  envelopes (fst (report s r)) = envelopes s
  /\ history (fst (report s r)) = history s
  /\ drawn (fst (report s r)) = drawn s.
Proof.
  unfold report. cbn [fst].
  destruct (String.eqb (Result.message r) EmptyString),
           (String.eqb (Result.warning r) EmptyString); cbn; auto.
Qed.

Lemma report_output s r :
  exists s',
    report s r
    = (s', exit_json
         {| Output.changed := Result.changed r;
            Output.message := Result.message r;
            Output.warning := Result.warning r;
            Output.password_slug := Result.password_slug r;
            Output.secret := Result.secret r;
            Output.action := Result.action r;
            Output.before_header := Result.password_slug r ++ " gpg recipients";
            Output.after_header := Result.password_slug r ++ " gpg recipients";
            Output.before := lines (Result.before r);
            Output.after := lines (Result.after r) |}).
Proof. unfold report. eexists. reflexivity. Qed.

(** An exit with [exit_json] comes from a body of [with lock:] that ended
    without exception. *)
Lemma exit_inv h md fuel s s' o :
  main h md fuel s = Some (s', exit_json o) ->
  exists s1 r1,
    locked h md (generator_of (params md))
      (s, Result.init (Params.password_slug (params md)))
    = ((s1, r1), inr tt)
    /\ report s1 r1 = (s', exit_json o).
Proof.
  intros Hrun. pose proof (ready_of_exit _ _ _ _ _ _ Hrun) as Hready.
  rewrite main_ready in Hrun by exact Hready.
  destruct (locked _ _ _ _) as [[s1 r1] [e | []]]; cbn in Hrun.
  - discriminate.
  - exists s1, r1. split; [reflexivity | congruence].
Qed.

End Leaving.

(** ** Absent *)

Section Absent.
Context `{Codec}.

(** [absent] on a slug without envelope changes nothing and says so, in
    check mode or not. *)
Lemma absent_without_envelope h md fuel s :
  let slug := Params.password_slug (params md) in
  ready h md fuel = true ->
  Params.state (params md) = absent ->
  envelopes s !! slug = None ->
  exists s',
    main h md fuel s
    = Some (s', exit_json
        {| Output.changed := false;
           Output.message := "Secret didn't exist";
           Output.warning := EmptyString;
           Output.password_slug := slug;
           Output.secret := text EmptyString;
           Output.action := None;
           Output.before_header := slug ++ " gpg recipients";
           Output.after_header := slug ++ " gpg recipients";
           Output.before := lines [];
           Output.after := lines [] |})
    /\ envelopes s' = envelopes s.
Proof.
  intros slug Hready Hst He. subst slug.
  rewrite main_ready by exact Hready.
  unfold locked, absent_branch. rewrite Hst.
  destruct (check_mode md);
    run_with ltac:(rewrite ?He); report_out;
    (eexists; split; [reflexivity |]); reflexivity.
Qed.

(** In check mode [absent] on an existing envelope announces the removal:
    [changed] with the action [remove], and the recipients before. *)
Lemma absent_check_mode_announces_removal h md fuel s e v :
  let slug := Params.password_slug (params md) in
  ready h md fuel = true ->
  Params.state (params md) = absent ->
  check_mode md = true ->
  envelopes s !! slug = Some e ->
  declared h !! slug = Some (env_recipients e) ->
  SecretStore.can_decrypt h e = true ->
  decode (Params.data_type (params md)) (env_payload e) = Some v ->
  exists s',
    main h md fuel s
    = Some (s', exit_json
        {| Output.changed := true;
           Output.message := "Secret will be deleted!";
           Output.warning := EmptyString;
           Output.password_slug := slug;
           Output.secret := text EmptyString;
           Output.action := Some "remove";
           Output.before_header := slug ++ " gpg recipients";
           Output.after_header := slug ++ " gpg recipients";
           Output.before := lines (env_recipients e);
           Output.after := lines [] |})
    /\ envelopes s' = envelopes s.
Proof.
  intros slug Hready Hst Hck He Hds Hkey Hv. subst slug.
  rewrite main_ready by exact Hready.
  unfold locked, absent_branch. rewrite Hst, Hck.
  run_with ltac:(rewrite ?He, ?Hds, ?match_test, ?Hkey, ?Hv).
  report_out. eexists. split; reflexivity.
Qed.

(** C3 (what the code does). [absent] on an existing envelope, not in check
    mode: the envelope is deleted, and the recipients are read only
    afterwards, from the file that is gone; the [FileNotFoundError] of that
    read lands in the handler for a missing envelope, so the module reports
    [changed=false], "Secret didn't exist" and no action. *)
Theorem absent_deletes_but_reports_unchanged h md fuel s e :
  let slug := Params.password_slug (params md) in
  ready h md fuel = true ->
  Params.state (params md) = absent ->
  check_mode md = false ->
  envelopes s !! slug = Some e ->
  exists s',
    main h md fuel s
    = Some (s', exit_json
        {| Output.changed := false;
           Output.message := "Secret didn't exist";
           Output.warning := EmptyString;
           Output.password_slug := slug;
           Output.secret := text EmptyString;
           Output.action := None;
           Output.before_header := slug ++ " gpg recipients";
           Output.after_header := slug ++ " gpg recipients";
           Output.before := lines [];
           Output.after := lines [] |})
    /\ envelopes s' = delete slug (envelopes s)
    /\ history s' = ReadActual slug :: Remove slug :: history s.
Proof.
  intros slug Hready Hst Hck He. subst slug.
  rewrite main_ready by exact Hready.
  unfold locked, absent_branch. rewrite Hst, Hck.
  run_with ltac:(rewrite ?He, ?lookup_delete_eq).
  report_out. eexists. split; [reflexivity |]. cbn. auto.
Qed.

End Absent.

(** [absent] on the envelope of [stale]. *)
Lemma absent_deletes_but_reports_unchanged_witness :
  exists s',
    main office (task absent false false) 1 stale
    = Some (s', exit_json
        {| Output.changed := false;
           Output.message := "Secret didn't exist";
           Output.warning := EmptyString;
           Output.password_slug := db;
           Output.secret := text EmptyString;
           Output.action := None;
           Output.before_header := db ++ " gpg recipients";
           Output.after_header := db ++ " gpg recipients";
           Output.before := lines [];
           Output.after := lines [] |})
    /\ envelopes s' = delete db (envelopes stale)
    /\ history s' = ReadActual db :: Remove db :: history stale.
Proof.
  apply (absent_deletes_but_reports_unchanged office (task absent false false)
           1 stale {| env_recipients := ["A"; "B"]; env_payload := "hunter2" |});
    reflexivity.
Defined.

(** ** Reading back, and check mode *)

Section Frames.
Context `{Codec}.

Lemma only_reads_trans a b c :
  only_reads a b -> only_reads b c -> only_reads a c.
Proof. intros Hab Hbc. induction Hbc; try constructor; assumption. Qed.

Ltac by_cases :=
  intros ? ? ?; run; intros ?;
  repeat (case_match; simplify_eq/=);
  (split; [reflexivity | repeat constructor]).

Lemma quiet_actual slug :
  quiet_on (SecretStore.get_recipients_from_encrypted_file slug).
Proof. by_cases. Qed.

Lemma quiet_declared h slug : quiet_on (SecretStore.get_recipients h slug).
Proof. by_cases. Qed.

Lemma quiet_get h slug dt c : quiet_on (SecretStore.get h slug dt c).
Proof. by_cases. Qed.

Lemma quiet_store {A} (m : M machine A) : quiet_on m -> quiet (store m).
Proof.
  intros Hm s r s' r' x. unfold store. destruct (m s) as [s1 y] eqn:E.
  intros [= <- <- <-]. eauto.
Qed.

Lemma quiet_generate {A} (g : G A) : quiet (generate g).
Proof.
  intros s r s' r' x. unfold generate. destruct (g (drawn s)) as [n y].
  intros [= <- <- <-]. split; [reflexivity | constructor].
Qed.

Lemma quiet_assign f : quiet (assign f).
Proof. intros s r s' r' x [= <- <- <-]. split; [reflexivity | constructor]. Qed.

Lemma quiet_result : quiet result.
Proof. intros s r s' r' x [= <- <- <-]. split; [reflexivity | constructor]. Qed.

Lemma quiet_ret {A} (a : A) : quiet (ret a).
Proof. intros s r s' r' x [= <- <- <-]. split; [reflexivity | constructor]. Qed.

Lemma quiet_bind {A B} (m : Run A) (k : A -> Run B) :
  quiet m -> (forall a, quiet (k a)) -> quiet (bind m k).
Proof.
  intros Hm Hk s r s' r' x. unfold bind.
  destruct (m (s, r)) as [[s1 r1] [e | a]] eqn:E.
  - intros [= <- <- <-]. eauto.
  - intros Hka. destruct (Hm _ _ _ _ _ E) as [E1 R1].
    destruct (Hk a _ _ _ _ _ Hka) as [E2 R2].
    split; [congruence | eapply only_reads_trans; eassumption].
Qed.

Lemma quiet_try {A} (m : Run A) (hd : exn -> option (Run A)) :
  quiet m -> (forall e k, hd e = Some k -> quiet k) ->
  quiet (try_except m hd).
Proof.
  intros Hm Hh s r s' r' x. unfold try_except.
  destruct (m (s, r)) as [[s1 r1] [e | a]] eqn:E.
  - destruct (Hm _ _ _ _ _ E) as [E1 R1].
    destruct (hd e) as [k |] eqn:Ek.
    + intros Hk. destruct (Hh _ _ Ek _ _ _ _ _ Hk) as [E2 R2].
      split; [congruence | eapply only_reads_trans; eassumption].
    + intros [= <- <- <-]. auto.
  - intros [= <- <- <-]. eauto.
Qed.

Ltac quiet_steps :=
  repeat first
    [ apply quiet_bind; [| intros ? ]
    | apply quiet_store
    | apply quiet_actual | apply quiet_declared | apply quiet_get
    | apply quiet_generate | apply quiet_assign | apply quiet_result
    | apply quiet_ret
    | match goal with |- quiet (if ?b then _ else _) => destruct b end ].

(** Deciding what the secret is never touches an envelope. *)
Lemma quiet_decide h p g : quiet (present_decide h p g).
Proof.
  unfold present_decide. apply quiet_try.
  - quiet_steps.
  - intros e k Hk. destruct e; simplify_eq; quiet_steps.
Qed.


Lemma quiet_absent_check h md :
  check_mode md = true -> quiet (absent_branch h md).
Proof.
  intros Hck. unfold absent_branch. rewrite Hck. apply quiet_try.
  - quiet_steps.
  - intros e k Hk. destruct e; simplify_eq; quiet_steps.
Qed.



Lemma commit_keeps_changed h md s r s' r' x :
  present_commit h md (s, r) = ((s', r'), x) ->
  Result.changed r' = Result.changed r
  /\ Result.secret r' = Result.secret r
  /\ Result.action r' = Result.action r
  /\ Result.before r' = Result.before r
  /\ Result.message r' = Result.message r
  /\ Result.warning r' = Result.warning r
  /\ (history s' = history s
      \/ history s' = Put (Params.password_slug (params md)) :: history s
      \/ history s' = ReadActual (Params.password_slug (params md))
                        :: Put (Params.password_slug (params md)) :: history s).
Proof.
  unfold present_commit. run. intros Hrun.
  repeat (case_match; simplify_eq/=); auto 10.
Qed.



Lemma finish_machine x s' o :
  finish x = Some (s', o) ->
  envelopes s' = envelopes (fst (fst x)) /\ history s' = history (fst (fst x)).
Proof.
  destruct x as [[s1 r1] [e | u]]; cbn [finish fst].
  - intros [= <- _]. auto.
  - intros Hrep. assert (Hr : report s1 r1 = (s', o)) by congruence.
    pose proof (report_machine s1 r1) as (He & Hh & _).
    rewrite Hr in He, Hh. auto.
Qed.



End Frames.



(** ** The lock *)

Section Lock.
Context `{Codec}.

Lemma main_blocked h md fuel s :
  has_lib h = true ->
  (forall k, (k < fuel)%nat ->
     lock_busy h (Params.password_slug (params md)) k = true) ->
  main h md fuel s = None.
Proof.
  intros Hlib Hbusy. unfold main. rewrite Hlib, init_choice. cbn [negb].
  unfold FileLock.acquire.
  rewrite acquire_from_busy; [reflexivity | reflexivity |].
  intros i Hi. now apply Hbusy.
Qed.

(** C6 (amended). The lock is built without a timeout, so
    acquiring it never times out: while other holders keep the lock, [main]
    stays blocked in [acquire], however many polls are made; it goes on as
    soon as a poll finds the lock free. *)
Theorem lock_blocks_without_timeout h md fuel s :
  let busy := lock_busy h (Params.password_slug (params md)) in
  has_lib h = true ->
  (forall k, (k < fuel)%nat -> busy k = true) ->
  main h md fuel s = None
  /\ (forall polls,
        FileLock.acquire busy FileLock.default_timeout polls
        <> FileLock.TimedOut)
  /\ (busy fuel = false ->
      FileLock.acquire busy FileLock.default_timeout (S fuel)
      = FileLock.Locked fuel).
Proof.
  intros busy Hlib Hbusy. split; [| split].
  - now apply main_blocked.
  - intros polls. apply acquire_from_default.
  - intros Hfree. unfold FileLock.acquire.
    clear Hlib. revert Hbusy Hfree.
    generalize busy. clear busy. intros busy.
    assert (Hgen : forall j k,
               (forall i, (i < j)%nat -> busy (k + i)%nat = true) ->
               busy (k + j)%nat = false ->
               FileLock.acquire_from busy FileLock.default_timeout k (S j)
               = FileLock.Locked (k + j)).
    { induction j as [| j IH]; intros k Hb Hf.
      - rewrite Nat.add_0_r in *. now apply acquire_from_free.
      - cbn. pose proof (Hb 0%nat ltac:(lia)) as H0.
        rewrite Nat.add_0_r in H0. rewrite H0. cbn.
        replace (k + S j)%nat with (S k + j)%nat by lia.
        apply IH.
        + intros i Hi. replace (S k + i)%nat with (k + S i)%nat by lia.
          apply Hb. lia.
        + now replace (S k + j)%nat with (k + S j)%nat by lia. }
    intros Hb Hf. apply (Hgen fuel 0%nat); cbn; auto.
Qed.

End Lock.

(** While another process keeps the lock, a hundred polls leave [main]
    blocked. *)
Lemma lock_blocks_without_timeout_witness :
  main contended (task present false false) 100 vacant = None
  /\ (forall polls,
        FileLock.acquire (lock_busy contended db) FileLock.default_timeout polls
        <> FileLock.TimedOut)
  /\ (lock_busy contended db 100 = false ->
      FileLock.acquire (lock_busy contended db) FileLock.default_timeout 101
      = FileLock.Locked 100).
Proof.
  apply (lock_blocks_without_timeout contended (task present false false)
           100 vacant); reflexivity.
Defined.

(** C6 as stated fails: with the lock held by another process for good, no
    number of polls makes [main] leave with [Timeout], or leave at all. *)
Lemma lock_held_for_good_never_times_out :
  ~ exists fuel left,
      main contended (task present false false) fuel vacant = Some left.
Proof.
  intros (fuel & left & Hrun).
  rewrite (main_blocked contended (task present false false) fuel vacant)
    in Hrun; [discriminate | reflexivity | reflexivity].
Qed.

(** ** The generator *)

(** C7 (amended). The user-supplied strategy hands back the
    keyword argument as it is: the literal when one was supplied, and [None]
    when none was; it never fails, and makes no random draw. *)
Theorem user_supplied_is_returned_verbatim :
  forall (h : host) (kw : kwargs) (n : nat),
  exists g,
    SecretGenerator_init "user_supplied" kw = inr g
    /\ getSecret h g n = (n, inr (kw_user_supplied_secret kw)).
Proof.
  intros h kw n. eexists. split; reflexivity.
Qed.

(** C7 as stated fails: without a literal the generation does not fail; it
    returns [None]. *)
Lemma missing_literal_is_not_rejected :
  exists g,
    SecretGenerator_init "user_supplied" (kwargs_of (params unsupplied)) = inr g
    /\ kw_user_supplied_secret (gen_kwargs g) = None
    /\ getSecret office g 0%nat = (0%nat, inr None).
Proof. eexists. repeat split. Qed.

Section Binary.
Context `{Codec}.

(** A generation that fails whenever it is tried makes [present] fail with
    the same exception wherever a new secret is needed, and no envelope is
    written. The generator raises no [RecipientsMismatchError]. *)
Lemma generation_failure h md fuel s e :
  let slug := Params.password_slug (params md) in
  ready h md fuel = true ->
  Params.state (params md) = present ->
  Params.overwrite (params md) = true \/ envelopes s !! slug = None ->
  (forall n, getSecret h (generator_of (params md)) n = (n, inl e)) ->
  e <> RecipientsMismatchError ->
  exists s', main h md fuel s = Some (s', raised e)
             /\ envelopes s' = envelopes s.
Proof.
  intros slug Hready Hst Hneed Hgen Hne. subst slug.
  rewrite main_ready by exact Hready.
  unfold locked, present_decide, present_commit. rewrite Hst.
  destruct (envelopes s !! Params.password_slug (params md)) as [env |] eqn:He.
  - destruct Hneed as [Hov | ?]; [| discriminate]. rewrite Hov.
    run_with ltac:(rewrite ?He, ?Hgen).
    destruct e; try congruence;
      run_with ltac:(rewrite ?He, ?Hgen); report_out;
      (eexists; split; [reflexivity |]); reflexivity.
  - run_with ltac:(rewrite ?He, ?Hgen).
    destruct (Params.overwrite (params md));
      run_with ltac:(rewrite ?He, ?Hgen); report_out;
      (eexists; split; [reflexivity |]); reflexivity.
Qed.



Lemma snoc_not_empty s c : (s ++ String c EmptyString)%string <> EmptyString.
Proof. destruct s; discriminate. Qed.






End Binary.



(** ** Random secrets *)

Lemma length_append (a b : string) :
  String.length (a ++ b) = (String.length a + String.length b)%nat.
Proof.
  induction a as [| c a IH]; [reflexivity |].
  change (S (String.length (a ++ b)) = S (String.length a + String.length b)).
  now rewrite IH.
Qed.

Lemma all_chars_append ok (a b : string) :
  all_chars ok (a ++ b) = all_chars ok a && all_chars ok b.
Proof.
  induction a as [| c a IH]; [reflexivity |].
  change (ok c && all_chars ok (a ++ b)
          = ok c && all_chars ok a && all_chars ok b).
  rewrite IH. now destruct (ok c).
Qed.

Lemma choice_nth {A} h (l : list A) (d0 : A) (d : nat) :
  l <> [] ->
  choice h l d = (S d, inr (nth (entropy h d mod List.length l) l d0)).
Proof.
  intros Hl. unfold choice.
  assert (Hlt : (entropy h d mod List.length l < List.length l)%nat).
  { apply Nat.mod_upper_bound. destruct l; [congruence | discriminate]. }
  now rewrite (nth_error_nth' l d0 Hlt).
Qed.

Lemma choices_nth {A} h (l : list A) (d0 : A) (n d : nat) :
  l <> [] ->
  choices h l n d
  = ((d + n)%nat,
     inr (map (fun i => nth (entropy h i mod List.length l) l d0) (seq d n))).
Proof.
  intros Hl. revert d. induction n as [| n IH]; intros d.
  - cbn. now rewrite Nat.add_0_r.
  - cbn [choices seq map]. unfold bind at 1.
    rewrite (choice_nth h l d0 d Hl). unfold bind. rewrite IH.
    unfold ret. now replace (S d + n)%nat with (d + S n)%nat by lia.
Qed.

Lemma join_strs (l : list string) :
  join (map Re.Str l) = inr (Py.join_empty l).
Proof.
  induction l as [| s l IH]; [reflexivity |].
  cbn [map join]. now rewrite IH.
Qed.

Lemma join_empty_length (l : list string) :
  Forall (fun c => String.length c = 1%nat) l ->
  String.length (Py.join_empty l) = List.length l.
Proof.
  induction 1 as [| c l Hc _ IH]; [reflexivity |].
  cbn [Py.join_empty fold_right List.length].
  rewrite length_append, Hc. cbn. f_equal. exact IH.
Qed.

Lemma join_empty_all_chars ok (l : list string) :
  Forall (fun c => all_chars ok c = true) l ->
  all_chars ok (Py.join_empty l) = true.
Proof.
  induction 1 as [| c l Hc _ IH]; [reflexivity |].
  cbn [Py.join_empty fold_right]. rewrite all_chars_append, Hc. exact IH.
Qed.

Lemma pick_in h (alphabet : list string) i :
  alphabet <> [] -> In (pick h alphabet i) alphabet.
Proof.
  intros Hne. unfold pick. apply nth_In. apply Nat.mod_upper_bound.
  destruct alphabet; [congruence | discriminate].
Qed.

(** The random strategy on a pattern whose matches in [string.printable]
    are the strings of [alphabet]. *)
Lemma random_picks h pattern n d alphabet :
  Re.findall (re_beyond h) pattern Py.printable
  = Re.Found (map Re.Str alphabet) ->
  alphabet <> [] ->
  randomSecret h n pattern d
  = ((d + Z.to_nat n)%nat,
     inr (Py.join_empty (map (pick h alphabet) (seq d (Z.to_nat n))))).
Proof.
  intros Hfind Hne. unfold randomSecret. rewrite Hfind. unfold bind.
  rewrite (choices_nth h (map Re.Str alphabet) (Re.Str EmptyString));
    [| destruct alphabet; [congruence | discriminate]].
  rewrite length_map.
  replace (map _ (seq d (Z.to_nat n)))
    with (map Re.Str (map (pick h alphabet) (seq d (Z.to_nat n)))).
  - now rewrite join_strs.
  - rewrite map_map. apply map_ext. intros i. unfold pick.
    now rewrite (map_nth Re.Str).
Qed.







(** * Further properties of the code *)

(** ** The constructor and the dispatch of the generator *)

Lemma lower_char_idempotent c :
  Py.lower_char (Py.lower_char c) = Py.lower_char c.
Proof. destruct c as [[] [] [] [] [] [] [] []]; reflexivity. Qed.

Lemma lower_idempotent s : Py.lower (Py.lower s) = Py.lower s.
Proof.
  induction s as [| c s IH]; [reflexivity |].
  cbn [Py.lower]. now rewrite lower_char_idempotent, IH.
Qed.

(** X1. The constructor reads the type of secret without regard to case: it
    does for a type what it does for the type in lower case, and the
    generator it returns holds the type in lower case with the keyword
    arguments unchanged. *)
Theorem constructor_ignores_case :
  forall (t : string) (kw : kwargs),
    SecretGenerator_init t kw = SecretGenerator_init (Py.lower t) kw
    /\ forall g, SecretGenerator_init t kw = inr g ->
         secret_type g = Py.lower t
         /\ gen_kwargs g = kw
         /\ In (secret_type g) ALLOWED_SECRET_TYPES.
Proof.
  intros t kw. split.
  - unfold SecretGenerator_init. now rewrite lower_idempotent.
  - intros g. unfold SecretGenerator_init.
    destruct (existsb _ ALLOWED_SECRET_TYPES) eqn:Hin; [| discriminate].
    intros [= <-]. cbn [secret_type gen_kwargs]. repeat split.
    apply existsb_exists in Hin as (x & Hx & Heq).
    apply String.eqb_eq in Heq. now subst x.
Qed.

Lemma choices_raises {A} h (l : list A) n d d' e :
  choices h l n d = (d', inl e) ->
  e = IndexError /\ l = [] /\ d' = d /\ (0 < n)%nat.
Proof.
  destruct l as [| a l].
  - destruct n as [| n]; [discriminate |].
    cbn [choices]. unfold bind at 1. unfold choice. rewrite nth_error_nil.
    intros [= <- <-]. repeat split. lia.
  - rewrite (choices_nth h (a :: l) a n d); discriminate.
Qed.

Lemma join_raises l e : join l = inl e -> e = TypeError.
Proof.
  induction l as [| [s | t] l IH]; cbn [join]; [discriminate | | congruence].
  destruct (join l); [| discriminate]. intros [= <-]. now apply IH.
Qed.

Lemma random_raises h n p d d' e :
  randomSecret h n p d = (d', inl e) -> random_error e = true.
Proof.
  unfold randomSecret. destruct (Re.findall _ _ _) as [items |].
  - unfold bind. destruct (choices h items (Z.to_nat n) d) as [d1 [e1 | picked]] eqn:Hc.
    + intros [= <- <-]. now destruct (choices_raises _ _ _ _ _ _ Hc) as (-> & _).
    + unfold of_sum. destruct (join picked) as [e1 | s] eqn:Hj; [| discriminate].
      intros [= <- <-]. now rewrite (join_raises _ _ Hj).
  - intros [= <- <-]. reflexivity.
Qed.

Lemma binary_raises h b d d' e :
  binarySecret h b d = (d', inl e) -> binary_error e = true /\ d' = d.
Proof.
  unfold binarySecret. destruct b as [cmd |]; [| now intros [= <- <-]].
  destruct (Py.split cmd); [now intros [= <- <-] |].
  destruct (run_process h _) as [rc out err | |];
    [| now intros [= <- <-] | now intros [= <- <-]].
  destruct (Z.eqb_spec rc 0) as [-> | Hrc].
  - unfold of_sum, Py.decode_utf8. destruct (Py.utf8_go [] out); [discriminate |].
    now intros [= <- <-].
  - intros [= <- <-]. cbn. split; [| reflexivity].
    now destruct (Z.eqb_spec rc 0).
Qed.

Lemma getSecret_raises h g d d' e :
  getSecret h g d = (d', inl e) ->
  (secret_type g = "random" /\ random_error e = true)
  \/ (secret_type g = "binary" /\ binary_error e = true /\ d' = d)
  \/ (~ In (secret_type g) ALLOWED_SECRET_TYPES
      /\ e = NotImplementedError /\ d' = d).
Proof.
  unfold getSecret.
  destruct (String.eqb_spec (secret_type g) "random") as [Hr | Hr].
  - unfold bind, ret.
    destruct (randomSecret _ _ _ _) as [d1 [e1 | s]] eqn:Hrun; [| discriminate].
    intros [= <- <-]. left. split; [exact Hr |]. eapply random_raises; eassumption.
  - destruct (String.eqb_spec (secret_type g) "binary") as [Hb | Hb].
    + unfold bind, ret.
      destruct (binarySecret _ _ _) as [d1 [e1 | s]] eqn:Hrun; [| discriminate].
      intros [= <- <-]. right; left. split; [exact Hb |].
      eapply binary_raises; eassumption.
    + destruct (String.eqb_spec (secret_type g) "user_supplied") as [Hu | Hu].
      * discriminate.
      * intros [= <- <-]. right; right. repeat split.
        cbn. intros [H | [H | [H | []]]]; congruence.
Qed.


Lemma generator_never_mismatch h g d d' :
  getSecret h g d <> (d', inl RecipientsMismatchError).
Proof.
  intros Hrun.
  destruct (getSecret_raises _ _ _ _ _ Hrun)
    as [(_ & He) | [(_ & He & _) | (_ & He & _)]]; discriminate.
Qed.

(** X3. The last [raise] of [getSecret] is dead code for every generator
    the constructor has accepted: such a generator never raises
    [NotImplementedError]. *)
Theorem accepted_generator_always_dispatches t kw g h d :
  SecretGenerator_init t kw = inr g ->
  snd (getSecret h g d) <> inl NotImplementedError.
Proof.
  intros Hinit Hraise.
  destruct (getSecret h g d) as [d' [e | s]] eqn:Hrun; cbn in Hraise;
    [| discriminate].
  injection Hraise as ->.
  unfold SecretGenerator_init in Hinit.
  destruct (existsb _ ALLOWED_SECRET_TYPES) eqn:Hin; [| discriminate].
  injection Hinit as <-.
  destruct (getSecret_raises _ _ _ _ _ Hrun)
    as [(_ & He) | [(_ & He & _) | (Hno & _)]]; try discriminate.
  apply Hno. cbn [secret_type].
  apply existsb_exists in Hin as (x & Hx & Heq).
  apply String.eqb_eq in Heq. now subst x.
Qed.

(** ** Edge cases of the random strategy *)

Section RandomEdges.
Context `{Codec}.

Lemma random_generator h p d :
  Params.secret_type p = random ->
  getSecret h (generator_of p) d
  = bind (randomSecret h (Params.secret_length p) (Params.secret_pattern p))
      (fun s => ret (Some s)) d.
Proof. intros Hty. unfold getSecret, generator_of. now rewrite Hty. Qed.

(** X4. A length of zero or less is no error: whatever the pattern
    matches, nothing is drawn and the secret is the empty string, which
    [present] stores for a slug without envelope like any other secret. *)
Theorem non_positive_length_stores_empty_secret h md fuel s ds items :
  let p := params md in
  let slug := Params.password_slug p in
  ready h md fuel = true ->
  Params.state p = present ->
  check_mode md = false ->
  Params.secret_type p = random ->
  Params.secret_length p <= 0 ->
  Re.findall (re_beyond h) (Params.secret_pattern p) Py.printable
  = Re.Found items ->
  envelopes s !! slug = None ->
  declared h !! slug = Some ds ->
  SecretStore.can_encrypt h ds = true ->
  getSecret h (generator_of p) (drawn s) = (drawn s, inr (Some EmptyString))
  /\ exists s' o,
       main h md fuel s = Some (s', exit_json o)
       /\ Output.secret o = text EmptyString
       /\ Output.action o = Some "add"
       /\ envelopes s' !! slug
          = Some {| env_recipients := ds;
                    env_payload := encode (Params.data_type p) (text EmptyString) |}.
Proof.
  intros p slug Hready Hst Hck Hty Hlen Hfind He Hds Henc. subst p slug.
  assert (Hgen : getSecret h (generator_of (params md)) (drawn s)
                 = (drawn s, inr (Some EmptyString))).
  { rewrite random_generator by exact Hty. unfold bind, randomSecret.
    rewrite Hfind. replace (Z.to_nat _) with 0%nat by lia. reflexivity. }
  split; [exact Hgen |].
  destruct (add_path h md fuel s ds (drawn s) (Some EmptyString))
    as (s' & Hrun & Henv & _); try assumption.
  do 2 eexists. split; [exact Hrun |]. cbn. repeat split.
  rewrite Henv. apply lookup_insert_eq.
Qed.

(** X5. A pattern that matches nothing in [string.printable] leaves
    [secrets.choice] nothing to choose from: for a positive length the
    generation raises [IndexError] before any draw, [present] fails with it
    wherever it needs the secret, and no envelope is written. *)
Theorem empty_alphabet_raises_index_error h md fuel s :
  let p := params md in
  ready h md fuel = true ->
  Params.state p = present ->
  Params.secret_type p = random ->
  0 < Params.secret_length p ->
  Re.findall (re_beyond h) (Params.secret_pattern p) Py.printable
  = Re.Found [] ->
  Params.overwrite p = true \/ envelopes s !! Params.password_slug p = None ->
  (forall d, getSecret h (generator_of p) d = (d, inl IndexError))
  /\ exists s',
       main h md fuel s = Some (s', raised IndexError)
       /\ envelopes s' = envelopes s.
Proof.
  intros p Hready Hst Hty Hlen Hfind Hneed. subst p.
  assert (Hgen : forall d, getSecret h (generator_of (params md)) d
                           = (d, inl IndexError)).
  { intros d. rewrite random_generator by exact Hty. unfold bind, randomSecret.
    rewrite Hfind. unfold bind.
    destruct (Z.to_nat (Params.secret_length (params md))) as [| k] eqn:Hk;
      [lia |].
    cbn [choices]. unfold bind, choice. now rewrite nth_error_nil. }
  split; [exact Hgen |].
  apply generation_failure; try assumption. discriminate.
Qed.

End RandomEdges.

(** X6. A pattern for which [findall] returns tuples (it has several
    groups) makes every generation of positive length fail with
    [TypeError], after the draws have been made. *)
Theorem tuples_raise_type_error h n pattern d items :
  Re.findall (re_beyond h) pattern Py.printable = Re.Found items ->
  items <> [] ->
  forallb is_tuple items = true ->
  0 < n ->
  randomSecret h n pattern d = ((d + Z.to_nat n)%nat, inl TypeError).
Proof.
  intros Hfind Hne Htup Hn. unfold randomSecret. rewrite Hfind. unfold bind.
  destruct items as [| i0 items]; [congruence |].
  rewrite (choices_nth h (i0 :: items) i0) by discriminate.
  destruct (Z.to_nat n) as [| k] eqn:Hk; [lia |].
  cbn [seq map]. set (idx := (entropy h d mod _)%nat).
  assert (Hin : In (nth idx (i0 :: items) i0) (i0 :: items)).
  { apply nth_In. apply Nat.mod_upper_bound. discriminate. }
  rewrite forallb_forall in Htup. specialize (Htup _ Hin).
  destruct (nth idx (i0 :: items) i0); [discriminate | reflexivity].
Qed.

(** ** Patterns made of one character set *)

Lemma match_seq_set neg rs c r :
  Re.match_seq [Re.Set_ neg rs] (String c r)
  = if set_accepts neg rs c then Some (single c, [], r) else None.
Proof.
  cbn [Re.match_seq Re.match_atom Re.one]. unfold set_accepts.
  now destruct (xorb neg (Re.in_set rs c)).
Qed.

Lemma match_seq_grouped_set neg rs c r :
  Re.match_seq [Re.Group [Re.Set_ neg rs]] (String c r)
  = if set_accepts neg rs c then Some (single c, [single c], r) else None.
Proof.
  cbn [Re.match_seq Re.match_atom Re.one]. unfold set_accepts.
  now destruct (xorb neg (Re.in_set rs c)).
Qed.

Lemma scan_set neg rs s :
  Re.scan [Re.Set_ neg rs] 0 s
  = map (fun c => Re.Str (single c))
      (List.filter (set_accepts neg rs) (list_ascii_of_string s)).
Proof.
  induction s as [| c r IH]; [reflexivity |].
  cbn [Re.scan list_ascii_of_string List.filter]. rewrite match_seq_set.
  destruct (set_accepts neg rs c); [cbn; f_equal |]; exact IH.
Qed.

Lemma scan_grouped_set neg rs s :
  Re.scan [Re.Group [Re.Set_ neg rs]] 0 s
  = map (fun c => Re.Str (single c))
      (List.filter (set_accepts neg rs) (list_ascii_of_string s)).
Proof.
  induction s as [| c r IH]; [reflexivity |].
  cbn [Re.scan list_ascii_of_string List.filter].
  rewrite match_seq_grouped_set.
  destruct (set_accepts neg rs c); [cbn; f_equal |]; exact IH.
Qed.

Lemma one_set_alphabet h pattern neg rs :
  one_set pattern neg rs ->
  Re.findall (re_beyond h) pattern Py.printable
  = Re.Found (map Re.Str (set_alphabet neg rs)).
Proof.
  unfold Re.findall, set_alphabet. rewrite map_map.
  intros [-> | ->]; [now rewrite scan_set | now rewrite scan_grouped_set].
Qed.

Lemma printable_char_in c :
  In c (list_ascii_of_string Py.printable) -> printable_char c = true.
Proof.
  intros Hin. unfold printable_char. apply existsb_exists.
  exists c. split; [exact Hin | apply Ascii.eqb_refl].
Qed.

(** X7. For a pattern that is one character set, alone or in one group (as
    the default pattern is), and a length that is not negative, the secret
    has exactly that many characters, and each of them is a printable
    character the set accepts. *)
Theorem one_set_secret_stays_in_the_set h pattern neg rs n d :
  one_set pattern neg rs ->
  existsb (set_accepts neg rs) (list_ascii_of_string Py.printable) = true ->
  0 <= n ->
  exists s,
    randomSecret h n pattern d = ((d + Z.to_nat n)%nat, inr s)
    /\ Z.of_nat (String.length s) = n
    /\ all_chars (fun c => set_accepts neg rs c && printable_char c) s = true.
Proof.
  intros Hone Hsome Hn.
  pose proof (one_set_alphabet h pattern neg rs Hone) as Hfind.
  assert (Hne : set_alphabet neg rs <> []).
  { apply existsb_exists in Hsome as (c & Hin & Hok). unfold set_alphabet.
    intros Hnil. apply map_eq_nil in Hnil.
    assert (Hc : In c (List.filter (set_accepts neg rs)
                         (list_ascii_of_string Py.printable)))
      by (apply filter_In; auto).
    rewrite Hnil in Hc. destruct Hc. }
  assert (Hmem : forall x, In x (set_alphabet neg rs) ->
             String.length x = 1%nat
             /\ all_chars (fun c => set_accepts neg rs c && printable_char c) x
                = true).
  { intros x Hx. unfold set_alphabet in Hx. apply in_map_iff in Hx as (c & <- & Hc).
    apply filter_In in Hc as [Hin Hok]. cbn.
    now rewrite Hok, (printable_char_in c Hin). }
  eexists.
  split; [exact (random_picks h pattern n d (set_alphabet neg rs) Hfind Hne) |].
  split.
  - rewrite join_empty_length.
    + rewrite length_map, length_seq. lia.
    + apply List.Forall_forall. intros x Hx.
      apply in_map_iff in Hx as (i & <- & _). apply Hmem. now apply pick_in.
  - apply join_empty_all_chars, List.Forall_forall. intros x Hx.
    apply in_map_iff in Hx as (i & <- & _). apply Hmem. now apply pick_in.
Qed.

(** ** A command that is missing or blank *)

Lemma split_blank cmd : all_chars Py.ascii_space cmd = true -> Py.split cmd = [].
Proof.
  unfold Py.split. induction cmd as [| c r IH]; [reflexivity |].
  cbn [all_chars]. intros [Hc Hr]%andb_true_iff.
  cbn [Py.split_go Py.space_width]. rewrite Hc. cbn [Py.flush]. now apply IH.
Qed.

Section NoCommand.
Context `{Codec}.

(** X8. The binary strategy without a command raises [AttributeError], and
    with a command made of whitespace only [IndexError]; no program is run
    (the outcome is the same on every host), [present] fails with that
    exception wherever it needs the secret, and no envelope is written. *)
Theorem blank_command_is_not_run h md fuel s :
  let p := params md in
  let e := no_command_error (Params.secret_binary p) in
  ready h md fuel = true ->
  Params.state p = present ->
  Params.secret_type p = binary ->
  blank (Params.secret_binary p) = true ->
  Params.overwrite p = true \/ envelopes s !! Params.password_slug p = None ->
  (forall h' d, getSecret h' (generator_of p) d = (d, inl e))
  /\ exists s', main h md fuel s = Some (s', raised e)
                /\ envelopes s' = envelopes s.
Proof.
  intros p e Hready Hst Hty Hblank Hneed. subst p e.
  assert (Hgen : forall h' d,
             getSecret h' (generator_of (params md)) d
             = (d, inl (no_command_error (Params.secret_binary (params md))))).
  { intros h' d. unfold getSecret, generator_of. rewrite Hty.
    cbn [secret_type gen_kwargs kwargs_of kw_binary choice_name
         String.eqb Ascii.eqb Bool.eqb].
    unfold bind, binarySecret.
    destruct (Params.secret_binary (params md)) as [cmd |]; [| reflexivity].
    cbn [blank] in Hblank. now rewrite (split_blank cmd Hblank). }
  split; [exact Hgen |].
  apply generation_failure; try assumption; [apply Hgen |].
  now destruct (Params.secret_binary (params md)).
Qed.

End NoCommand.

(** ** What every run of the store calls preserves *)

Section Steady.
Context `{Codec}.
Variable R : machine -> machine -> Prop.
Hypothesis R_refl : forall s, R s s.
Hypothesis R_trans : forall a b c, R a b -> R b c -> R a c.
Hypothesis R_drawn : forall s n, R s (with_drawn n s).

Lemma steady_store {A} (m : M machine A) : steady_on R m -> steady R (store m).
Proof.
  intros Hm s r s' r' x. unfold store. destruct (m s) as [s1 y] eqn:E.
  intros [= <- <- <-]. eauto.
Qed.

Lemma steady_generate {A} (g : G A) : steady R (generate g).
Proof.
  intros s r s' r' x. unfold generate. destruct (g (drawn s)) as [n y].
  intros [= <- <- <-]. apply R_drawn.
Qed.

Lemma steady_assign f : steady R (assign f).
Proof. intros s r s' r' x [= <- <- <-]. apply R_refl. Qed.

Lemma steady_result : steady R result.
Proof. intros s r s' r' x [= <- <- <-]. apply R_refl. Qed.

Lemma steady_ret {A} (a : A) : steady R (ret a).
Proof. intros s r s' r' x [= <- <- <-]. apply R_refl. Qed.

Lemma steady_bind {A B} (m : Run A) (k : A -> Run B) :
  steady R m -> (forall a, steady R (k a)) -> steady R (bind m k).
Proof.
  intros Hm Hk s r s' r' x. unfold bind.
  destruct (m (s, r)) as [[s1 r1] [e | a]] eqn:E.
  - intros [= <- <- <-]. eauto.
  - intros Hka. eapply R_trans; [eapply Hm | eapply Hk]; eassumption.
Qed.

Lemma steady_try {A} (m : Run A) (hd : exn -> option (Run A)) :
  steady R m -> (forall e k, hd e = Some k -> steady R k) ->
  steady R (try_except m hd).
Proof.
  intros Hm Hh s r s' r' x. unfold try_except.
  destruct (m (s, r)) as [[s1 r1] [e | a]] eqn:E.
  - destruct (hd e) as [k |] eqn:Ek.
    + intros Hk. eapply R_trans; [eapply Hm | eapply Hh]; eassumption.
    + intros [= <- <- <-]. eauto.
  - intros [= <- <- <-]. eauto.
Qed.

Variable h : host.
Variable md : AnsibleModule.
Hypothesis R_actual :
  steady_on R (SecretStore.get_recipients_from_encrypted_file
                 (Params.password_slug (params md))).
Hypothesis R_declared :
  steady_on R (SecretStore.get_recipients h (Params.password_slug (params md))).
Hypothesis R_get : forall dt c,
  steady_on R (SecretStore.get h (Params.password_slug (params md)) dt c).
Hypothesis R_put : forall v dt,
  steady_on R (SecretStore.put h (Params.password_slug (params md)) v dt).
Hypothesis R_remove :
  steady_on R (SecretStore.remove (Params.password_slug (params md))).

Ltac steady_steps :=
  repeat first
    [ apply steady_bind; [| intros ? ]
    | apply steady_store
    | apply R_actual | apply R_declared | apply R_get | apply R_put
    | apply R_remove
    | apply steady_generate | apply steady_assign | apply steady_result
    | apply steady_ret
    | match goal with |- steady R (if ?b then _ else _) => destruct b end ].

Lemma steady_locked g : steady R (locked h md g).
Proof.
  unfold locked. destruct (Params.state (params md)).
  - apply steady_bind; [| intros _].
    + unfold present_decide. apply steady_try; [steady_steps |].
      intros e k Hk. destruct e; simplify_eq; steady_steps.
    + unfold present_commit. steady_steps.
  - unfold absent_branch. apply steady_try; [steady_steps |].
    intros e k Hk. destruct e; simplify_eq; steady_steps.
Qed.

End Steady.

Section Elsewhere.
Context `{Codec}.

Ltac by_paths :=
  intros ? ? ?; run; intros ?;
  repeat (case_match; simplify_eq/=).

Lemma elsewhere_refl slug s : elsewhere_untouched slug s s.
Proof. now intros k _. Qed.

Lemma elsewhere_trans slug a b c :
  elsewhere_untouched slug a b -> elsewhere_untouched slug b c ->
  elsewhere_untouched slug a c.
Proof. intros Hab Hbc k Hk. now rewrite Hbc, Hab. Qed.

Lemma elsewhere_put h slug v dt :
  steady_on (elsewhere_untouched slug) (SecretStore.put h slug v dt).
Proof.
  by_paths; intros k Hk; cbn; try reflexivity.
  now rewrite lookup_insert_ne.
Qed.

Lemma elsewhere_remove slug :
  steady_on (elsewhere_untouched slug) (SecretStore.remove slug).
Proof.
  by_paths; intros k Hk; cbn; try reflexivity.
  now rewrite lookup_delete_ne.
Qed.

Lemma elsewhere_quiet {A} slug (m : M machine A) :
  quiet_on m -> steady_on (elsewhere_untouched slug) m.
Proof. intros Hq s s' x Hrun k _. now rewrite (proj1 (Hq _ _ _ Hrun)). Qed.

Lemma main_inv h md fuel s s' o :
  main h md fuel s = Some (s', o) ->
  (s' = s /\ (forall out, o <> exit_json out))
  \/ exists g s1 r1 x,
       locked h md g (s, Result.init (Params.password_slug (params md)))
       = ((s1, r1), x)
       /\ finish ((s1, r1), x) = Some (s', o).
Proof.
  unfold main. destruct (has_lib h); cbn [negb].
  - destruct (SecretGenerator_init _ _) as [e | g].
    + intros [= <- <-]. left. split; [reflexivity | discriminate].
    + destruct (FileLock.acquire _ _ _); try discriminate.
      * destruct (locked _ _ _ _) as [[s1 r1] x] eqn:Hl. intros Hfin.
        right. exists g, s1, r1, x. split; [exact Hl |].
        destruct x; exact Hfin.
      * intros [= <- <-]. left. split; [reflexivity | discriminate].
  - intros [= <- <-]. left. split; [reflexivity | discriminate].
Qed.

(** X9. Whatever [main] does, in either state, in check mode or not, and
    however it ends, it leaves the envelopes of all other slugs as they
    were. *)
Theorem other_slugs_are_untouched h md fuel s s' o :
  main h md fuel s = Some (s', o) ->
  elsewhere_untouched (Params.password_slug (params md)) s s'.
Proof.
  intros Hrun.
  destruct (main_inv _ _ _ _ _ _ Hrun)
    as [[-> _] | (g & s1 & r1 & x & Hlocked & Hfin)];
    [apply elsewhere_refl |].
  destruct (finish_machine _ _ _ Hfin) as [Henv _]. cbn [fst] in Henv.
  intros k Hk. rewrite Henv.
  revert k Hk.
  change (elsewhere_untouched (Params.password_slug (params md)) s s1).
  eapply (steady_locked (elsewhere_untouched (Params.password_slug (params md))));
    [apply elsewhere_refl | apply elsewhere_trans | | | | | | | exact Hlocked].
  - intros ? ? ? ?. reflexivity.
  - apply elsewhere_quiet, quiet_actual.
  - apply elsewhere_quiet, quiet_declared.
  - intros dt c. apply elsewhere_quiet, quiet_get.
  - intros v dt. apply elsewhere_put.
  - apply elsewhere_remove.
Qed.

End Elsewhere.

(** ** Rotation *)

Section Rotation.
Context `{Codec}.

(** X10. [present] with overwrite on an existing envelope replaces the
    secret without ever decrypting the old one: the private key need not be
    at hand, and recipients that differ from the declared ones raise no
    warning. The new secret is written for the declared recipients, and the
    module reports the action [update] with the old actual recipients
    before and the declared ones after. *)
Theorem rotation_never_decrypts h md fuel s e ds n g :
  let slug := Params.password_slug (params md) in
  let dt := Params.data_type (params md) in
  ready h md fuel = true ->
  Params.state (params md) = present ->
  Params.overwrite (params md) = true ->
  check_mode md = false ->
  envelopes s !! slug = Some e ->
  declared h !! slug = Some ds ->
  SecretStore.can_encrypt h ds = true ->
  getSecret h (generator_of (params md)) (drawn s) = (n, inr g) ->
  exists s',
    main h md fuel s
    = Some (s', exit_json
        {| Output.changed := true;
           Output.message := rotation_requested;
           Output.warning := EmptyString;
           Output.password_slug := slug;
           Output.secret := generated g;
           Output.action := Some "update";
           Output.before_header := slug ++ " gpg recipients";
           Output.after_header := slug ++ " gpg recipients";
           Output.before := lines (env_recipients e);
           Output.after := lines ds |})
    /\ envelopes s'
       = <[slug := {| env_recipients := ds;
                      env_payload := encode dt (generated g) |}]>
           (envelopes s)
    /\ history s' = ReadActual slug :: Put slug :: ReadActual slug :: history s
    /\ warned s' = warned s.
Proof.
  intros slug dt Hready Hst Hov Hck He Hds Henc Hgen. subst slug dt.
  rewrite main_ready by exact Hready.
  unfold locked, present_decide, present_commit. rewrite Hst, Hov, Hck.
  run_with ltac:(rewrite ?He, ?Hds, ?Henc, ?Hgen, ?lookup_insert_eq).
  report_out. eexists. split; [reflexivity |]. cbn. auto.
Qed.

(** X11. The same rotation in check mode writes nothing, yet it runs the
    generator, and it looks neither at the declared recipients nor at the
    keyring: it reports the recipients after as equal to the recipients
    before, even where the real run would encrypt for other recipients or
    fail for want of any. *)
Theorem rotation_rehearsal_reports_old_recipients h md fuel s e n g :
  let slug := Params.password_slug (params md) in
  ready h md fuel = true ->
  Params.state (params md) = present ->
  Params.overwrite (params md) = true ->
  check_mode md = true ->
  envelopes s !! slug = Some e ->
  getSecret h (generator_of (params md)) (drawn s) = (n, inr g) ->
  exists s',
    main h md fuel s
    = Some (s', exit_json
        {| Output.changed := true;
           Output.message := rotation_requested;
           Output.warning := EmptyString;
           Output.password_slug := slug;
           Output.secret := generated g;
           Output.action := Some "update";
           Output.before_header := slug ++ " gpg recipients";
           Output.after_header := slug ++ " gpg recipients";
           Output.before := lines (env_recipients e);
           Output.after := lines (env_recipients e) |})
    /\ envelopes s' = envelopes s
    /\ drawn s' = n
    /\ history s' = ReadActual slug :: history s.
Proof.
  intros slug Hready Hst Hov Hck He Hgen. subst slug.
  rewrite main_ready by exact Hready.
  unfold locked, present_decide, present_commit. rewrite Hst, Hov, Hck.
  run_with ltac:(rewrite ?He, ?Hgen).
  report_out. eexists. split; [reflexivity |]. cbn. auto.
Qed.

End Rotation.

(** ** Failures, and [absent] for real *)

Section Failures.
Context `{Codec}.

Lemma commit_failure_frame h md s r s' r' e :
  present_commit h md (s, r) = ((s', r'), inl e) ->
  envelopes s' = envelopes s.
Proof.
  unfold present_commit. run. intros Hrun.
  repeat (case_match; simplify_eq/=); try reflexivity.
  rewrite lookup_insert_eq in *. discriminate.
Qed.

(** [absent] outside check mode cannot raise: the two calls of the store
    raise nothing but [FileNotFoundError], which is handled. *)
Lemma absent_for_real h md s r s' r' x :
  check_mode md = false ->
  absent_branch h md (s, r) = ((s', r'), x) ->
  x = inr tt
  /\ envelopes s' = delete (Params.password_slug (params md)) (envelopes s)
  /\ Result.changed r' = false
  /\ Result.action r' = Result.action r
  /\ Result.message r' = did_not_exist
  /\ Result.warning r' = Result.warning r
  /\ Result.password_slug r' = Result.password_slug r.
Proof.
  intros Hck. unfold absent_branch. rewrite Hck.
  destruct (envelopes s !! Params.password_slug (params md)) as [e |] eqn:He;
    run_with ltac:(rewrite ?He, ?lookup_delete_eq);
    intros [= <- <- <-]; cbn; repeat split.
  symmetry. now apply delete_id.
Qed.

(** X12. A run that does not end with [exit_json] (an exception leaves
    [main], or the library is missing) has written and deleted nothing. *)
Theorem failure_writes_nothing h md fuel s s' o :
  main h md fuel s = Some (s', o) ->
  (forall out, o <> exit_json out) ->
  envelopes s' = envelopes s.
Proof.
  intros Hrun Hfail.
  destruct (main_inv _ _ _ _ _ _ Hrun)
    as [[-> _] | (g & s1 & r1 & x & Hlocked & Hfin)]; [reflexivity |].
  destruct x as [e | u]; cbn [finish] in Hfin.
  - injection Hfin as <- <-. unfold locked in Hlocked.
    destruct (Params.state (params md)).
    + unfold bind in Hlocked.
      destruct (present_decide _ _ _ _) as [[s0 r0] [e0 | []]] eqn:Hd.
      * injection Hlocked as <- <- <-. apply (quiet_decide _ _ _ _ _ _ _ _ Hd).
      * rewrite (commit_failure_frame _ _ _ _ _ _ _ Hlocked).
        apply (quiet_decide _ _ _ _ _ _ _ _ Hd).
    + destruct (check_mode md) eqn:Hck.
      * apply (quiet_absent_check h md Hck _ _ _ _ _ Hlocked).
      * now destruct (absent_for_real _ _ _ _ _ _ _ Hck Hlocked).
  - destruct (report_output s1 r1) as (s2 & Hout). rewrite Hout in Hfin.
    injection Hfin as _ <-. now destruct (Hfail _ eq_refl).
Qed.

(** X13. [absent] outside check mode never fails: it always ends with
    [exit_json], the slug has no envelope afterwards and the rest of the
    store is as before, so that a second [absent] changes nothing more. *)
Theorem absent_always_succeeds_and_is_idempotent h md fuel s :
  let slug := Params.password_slug (params md) in
  ready h md fuel = true ->
  Params.state (params md) = absent ->
  check_mode md = false ->
  exists s1 o1 s2 o2,
    main h md fuel s = Some (s1, exit_json o1)
    /\ envelopes s1 = delete slug (envelopes s)
    /\ main h md fuel s1 = Some (s2, exit_json o2)
    /\ envelopes s2 = envelopes s1.
Proof.
  intros slug Hready Hst Hck. subst slug.
  assert (Hone : forall s0, exists s1 o1,
             main h md fuel s0 = Some (s1, exit_json o1)
             /\ envelopes s1
                = delete (Params.password_slug (params md)) (envelopes s0)).
  { intros s0. rewrite main_ready by exact Hready.
    unfold locked. rewrite Hst.
    destruct (absent_branch h md _) as [[s1 r1] x] eqn:Hrun.
    destruct (absent_for_real _ _ _ _ _ _ _ Hck Hrun) as (-> & Henv & _).
    cbn [finish]. destruct (report_output s1 r1) as (s2 & Hout).
    pose proof (report_machine s1 r1) as (Hsame & _).
    rewrite Hout in Hsame |- *. cbn [fst] in Hsame.
    do 2 eexists. split; [reflexivity |]. now rewrite Hsame. }
  destruct (Hone s) as (s1 & o1 & Hrun1 & Henv1).
  destruct (Hone s1) as (s2 & o2 & Hrun2 & Henv2).
  exists s1, o1, s2, o2. repeat split; try assumption.
  rewrite Henv2, Henv1. apply delete_delete_eq.
Qed.

(** X14. In check mode [absent] does not reconcile: on an envelope whose
    actual recipients differ from the declared ones it fails with
    [RecipientsMismatchError], before it has looked at any key, and the
    envelope stays. *)
Theorem absent_rehearsal_fails_on_mismatch h md fuel s e ds :
  let slug := Params.password_slug (params md) in
  ready h md fuel = true ->
  Params.state (params md) = absent ->
  check_mode md = true ->
  envelopes s !! slug = Some e ->
  declared h !! slug = Some ds ->
  env_recipients e <> ds ->
  exists s',
    main h md fuel s = Some (s', raised RecipientsMismatchError)
    /\ envelopes s' = envelopes s
    /\ history s' = Get slug true :: history s.
Proof.
  intros slug Hready Hst Hck He Hds Hne. subst slug.
  pose proof (mismatch_test _ _ Hne) as Hneq.
  rewrite main_ready by exact Hready.
  unfold locked, absent_branch. rewrite Hst, Hck.
  run_with ltac:(rewrite ?He, ?Hds, ?Hneq).
  report_out. eexists. split; [reflexivity |]. cbn. auto.
Qed.

End Failures.

(** ** An existing secret is kept *)

Section Keeping.
Context `{Codec}.

Lemma decide_ignores_generator h p p' g g' s r e :
  Params.password_slug p' = Params.password_slug p ->
  Params.data_type p' = Params.data_type p ->
  Params.overwrite p = false ->
  Params.overwrite p' = false ->
  envelopes s !! Params.password_slug p = Some e ->
  present_decide h p' g' (s, r) = present_decide h p g (s, r).
Proof.
  intros Hslug Hdt Hov Hov' He. unfold present_decide.
  rewrite Hslug, Hdt, Hov, Hov'.
  destruct (declared h !! Params.password_slug p) as [ds |] eqn:Hd;
    [destruct (list_eqb (env_recipients e) ds) eqn:Hm;
       destruct (SecretStore.can_decrypt h e) eqn:Hk;
       destruct (decode (Params.data_type p) (env_payload e)) eqn:Hv | ];
    run_with ltac:(rewrite ?He, ?Hd, ?Hm, ?Hk, ?Hv); reflexivity.
Qed.

(** X15. Without overwrite an existing envelope is never replaced by a new
    secret: the generator is not consulted at all, for [main] does the same
    whatever the kind of secret, the command, the length, the pattern and
    the literal are. *)
Theorem existing_secret_ignores_generation
    h md fuel s e kind cmd len pattern literal :
  Params.state (params md) = present ->
  Params.overwrite (params md) = false ->
  envelopes s !! Params.password_slug (params md) = Some e ->
  main h (with_generation kind cmd len pattern literal md) fuel s
  = main h md fuel s.
Proof.
  intros Hst Hov He. unfold main, locked, with_generation.
  cbn [params check_mode Params.state Params.password_slug Params.secret_type].
  rewrite Hst. rewrite !init_choice.
  destruct (has_lib h); cbn [negb]; [| reflexivity].
  destruct (FileLock.acquire _ _ _); try reflexivity.
  unfold bind.
  rewrite (decide_ignores_generator h (params md) _
             {| secret_type := choice_name (Params.secret_type (params md));
                gen_kwargs := kwargs_of (params md) |} _ s _ e);
    try reflexivity; assumption.
Qed.

End Keeping.

(** ** What the module reports *)

Section Reporting.
Context `{Codec}.










(** The four ways [present] decides, read off the result. *)
Lemma decide_result h p g s r s' r' :
  present_decide h p g (s, r) = ((s', r'), inr tt) ->
  Result.password_slug r' = Result.password_slug r
  /\ ((Result.changed r' = false /\ Result.action r' = Result.action r
       /\ Result.message r' = Result.message r
       /\ Result.warning r' = Result.warning r)
      \/ (Result.changed r' = true /\ Result.action r' = Some "update"
          /\ Result.message r' = rotation_requested
          /\ Result.warning r' = Result.warning r)
      \/ (Result.changed r' = true /\ Result.action r' = Some "add"
          /\ Result.message r' = not_found
          /\ Result.warning r' = Result.warning r)
      \/ (Result.changed r' = true /\ Result.action r' = Some "update"
          /\ Result.message r' = Result.message r
          /\ Result.warning r' = mismatch_warning)).
Proof.
  unfold present_decide.
  set (slug := Params.password_slug p). set (dt := Params.data_type p).
  destruct (envelopes s !! slug) as [e |] eqn:He.
  - destruct (Params.overwrite p) eqn:Hov.
    + destruct (getSecret h g (drawn s)) as [n [ex | gs]] eqn:Hg.
      * destruct (getSecret h g n) as [n2 [ex2 | gs2]] eqn:Hg2;
          destruct (declared h !! slug) as [ds |] eqn:Hd;
          destruct ex;
          try (now destruct (generator_never_mismatch _ _ _ _ Hg));
          run_with ltac:(rewrite ?He, ?Hg, ?Hg2, ?Hd);
          intros [= <- <-] || intros [=]; cbn; auto 10.
      * run_with ltac:(rewrite ?He, ?Hg). intros [= <- <-]. cbn. auto 10.
    + destruct (declared h !! slug) as [ds |] eqn:Hd;
        [destruct (list_eqb (env_recipients e) ds) eqn:Hm;
           destruct (SecretStore.can_decrypt h e) eqn:Hk;
           destruct (decode dt (env_payload e)) eqn:Hv | ];
        run_with ltac:(rewrite ?He, ?Hd, ?Hm, ?Hk, ?Hv);
        intros [= <- <-] || intros [=]; cbn; auto 10.
  - destruct (getSecret h g (drawn s)) as [n [ex | gs]] eqn:Hg;
      destruct (declared h !! slug) as [ds |] eqn:Hd;
      destruct (Params.overwrite p);
      run_with ltac:(rewrite ?He, ?Hg, ?Hd);
      intros [= <- <-] || intros [=]; cbn; auto 10.
Qed.

Lemma absent_result h md s r s' r' :
  absent_branch h md (s, r) = ((s', r'), inr tt) ->
  Result.password_slug r' = Result.password_slug r
  /\ Result.warning r' = Result.warning r
  /\ ((Result.changed r' = true /\ Result.action r' = Some "remove"
       /\ Result.message r' = will_be_deleted)
      \/ (Result.changed r' = false /\ Result.action r' = Result.action r
          /\ Result.message r' = did_not_exist)).
Proof.
  destruct (check_mode md) eqn:Hck.
  - unfold absent_branch. rewrite Hck.
    set (slug := Params.password_slug (params md)).
    destruct (envelopes s !! slug) as [e |] eqn:He;
      [destruct (declared h !! slug) as [ds |] eqn:Hd;
         [destruct (list_eqb (env_recipients e) ds) eqn:Hm;
            destruct (SecretStore.can_decrypt h e) eqn:Hk;
            destruct (decode (Params.data_type (params md)) (env_payload e))
              eqn:Hv | ] | ];
      run_with ltac:(rewrite ?He, ?Hd, ?Hm, ?Hk, ?Hv);
      intros [= <- <-] || intros [=]; cbn; auto 10.
  - intros Hrun.
    destruct (absent_for_real _ _ _ _ _ _ _ Hck Hrun)
      as (_ & _ & Hc & Ha & Hm & Hw & Hs).
    auto 10.
Qed.

(** How the body of [with lock:] leaves the result when it ends without
    exception. *)
Lemma locked_result h md g s s' r' :
  locked h md g (s, Result.init (Params.password_slug (params md)))
  = ((s', r'), inr tt) ->
  Result.password_slug r' = Params.password_slug (params md)
  /\ (Result.changed r' = true <-> Result.action r' <> None)
  /\ match Params.state (params md) with
     | present => In (Result.action r') [None; Some "add"; Some "update"]
     | absent => In (Result.action r') [None; Some "remove"]
     end
  /\ In (Result.message r') (EmptyString :: log_texts)
  /\ In (Result.warning r') [EmptyString; mismatch_warning].
Proof.
  unfold locked. destruct (Params.state (params md)).
  - unfold bind.
    destruct (present_decide _ _ _ _) as [[s0 r0] [e | []]] eqn:Hd;
      [discriminate |].
    intros Hc.
    destruct (commit_keeps_changed _ _ _ _ _ _ _ Hc)
      as (Hch & _ & Hac & _ & Hme & Hwa & _).
    assert (Hslug : Result.password_slug r' = Result.password_slug r0).
    { revert Hc. unfold present_commit. run. intros Hc.
      repeat (case_match; simplify_eq/=); reflexivity. }
    destruct (decide_result _ _ _ _ _ _ _ Hd) as (Hs & Hcases).
    rewrite Hslug, Hs, Hch, Hac, Hme, Hwa. cbn [Result.init Result.password_slug].
    split; [reflexivity |].
    destruct Hcases as [(-> & -> & -> & ->) | [(-> & -> & -> & ->)
                       | [(-> & -> & -> & ->) | (-> & -> & -> & ->)]]];
      cbn; repeat split; auto 10; try discriminate; try congruence.
  - intros Hrun.
    destruct (absent_result _ _ _ _ _ _ Hrun) as (Hs & Hw & Hcases).
    rewrite Hs, Hw. cbn [Result.init Result.password_slug Result.warning].
    split; [reflexivity |].
    destruct Hcases as [(-> & -> & ->) | (-> & -> & ->)];
      cbn; repeat split; auto 10; try discriminate; try congruence.
Qed.

(** X16. The report is coherent: the module reports a change exactly when
    it reports an action; the action is [add] or [update] for [present] and
    [remove] for [absent]; and the slug reported is the slug asked for. *)
Theorem change_and_action_agree h md fuel s s' out :
  main h md fuel s = Some (s', exit_json out) ->
  (Output.changed out = true <-> Output.action out <> None)
  /\ match Params.state (params md) with
     | present => In (Output.action out) [None; Some "add"; Some "update"]
     | absent => In (Output.action out) [None; Some "remove"]
     end
  /\ Output.password_slug out = Params.password_slug (params md).
Proof.
  intros Hrun.
  destruct (exit_inv _ _ _ _ _ _ Hrun) as (s1 & r1 & Hlocked & Hreport).
  destruct (report_output s1 r1) as (s2 & Hout). rewrite Hout in Hreport.
  injection Hreport as _ <-. cbn [Output.changed Output.action Output.password_slug].
  destruct (locked_result _ _ _ _ _ _ Hlocked) as (Hs & Hiff & Hact & _).
  auto.
Qed.


End Reporting.

(** ** A run that changes nothing *)

Section Rehearsal.
Context `{Codec}.

Lemma commit_of_unchanged h md s r :
  Result.changed r = false ->
  present_commit h md (s, r) = ((s, r), inr tt).
Proof. intros Hch. unfold present_commit. run. now rewrite Hch. Qed.

(** X18. When [present] reports no change, check mode makes no difference:
    run for real or rehearsed, [main] leaves the same machine with the same
    report. *)
Theorem unchanged_run_is_the_same_in_check_mode h md fuel s s' out b :
  Params.state (params md) = present ->
  main h md fuel s = Some (s', exit_json out) ->
  Output.changed out = false ->
  main h (with_check b md) fuel s = Some (s', exit_json out).
Proof.
  intros Hst Hrun Hch.
  pose proof (ready_of_exit _ _ _ _ _ _ Hrun) as Hready.
  assert (Hready' : ready h (with_check b md) fuel = true) by exact Hready.
  rewrite <- Hrun. rewrite !main_ready by assumption.
  destruct (exit_inv _ _ _ _ _ _ Hrun) as (s1 & r1 & Hlocked & Hreport).
  unfold locked in *. cbn [with_check params]. rewrite Hst in *.
  unfold bind in *.
  destruct (present_decide _ _ _ _) as [[s0 r0] [e | []]]; [reflexivity |].
  destruct (commit_keeps_changed _ _ _ _ _ _ _ Hlocked) as (Hsame & _).
  destruct (report_output s1 r1) as (s2 & Hout). rewrite Hout in Hreport.
  injection Hreport as _ <-. cbn [Output.changed] in Hch.
  rewrite !commit_of_unchanged by congruence. reflexivity.
Qed.

End Rehearsal.

(** ** The further properties on [office] *)


(** The type written in capitals. *)
Lemma accepted_generator_always_dispatches_witness :
  snd (getSecret office
         {| secret_type := "binary";
            gen_kwargs := kwargs_of (params (rotate_with "false")) |} 0%nat)
  <> inl NotImplementedError.
Proof.
  apply (accepted_generator_always_dispatches "BINARY"
           (kwargs_of (params (rotate_with "false")))).
  reflexivity.
Defined.

(** A secret of length zero. *)
Lemma non_positive_length_stores_empty_secret_witness :
  getSecret office (generator_of (params (random_request 0 "[0-9]")))
    (drawn vacant)
  = (drawn vacant, inr (Some EmptyString))
  /\ exists s' o,
       main office (random_request 0 "[0-9]") 1 vacant = Some (s', exit_json o)
       /\ Output.secret o = text EmptyString
       /\ Output.action o = Some "add"
       /\ envelopes s' !! db
          = Some {| env_recipients := ["A"; "C"];
                    env_payload := encode Plain (text EmptyString) |}.
Proof.
  apply (non_positive_length_stores_empty_secret office
           (random_request 0 "[0-9]") 1 vacant ["A"; "C"]
           (map (fun c => Re.Str (single c))
              (list_ascii_of_string Py.digits)));
    reflexivity.
Defined.

(** A pattern that matches no printable character twice in a row. *)
Lemma empty_alphabet_raises_index_error_witness :
  (forall d,
     getSecret office (generator_of (params (random_request 5 "%%"))) d
     = (d, inl IndexError))
  /\ exists s',
       main office (random_request 5 "%%") 1 vacant
       = Some (s', raised IndexError)
       /\ envelopes s' = envelopes vacant.
Proof.
  apply (empty_alphabet_raises_index_error office (random_request 5 "%%") 1
           vacant); try reflexivity.
  right. reflexivity.
Defined.

(** A pattern with two groups. *)
Lemma tuples_raise_type_error_witness :
  randomSecret office 5 "([0-9])([a-z])" 0%nat
  = ((0 + Z.to_nat 5)%nat, inl TypeError).
Proof.
  apply (tuples_raise_type_error office 5 "([0-9])([a-z])" 0%nat
           [Re.Tuple ["9"; "a"]]); try reflexivity.
  discriminate.
Defined.

(** The default pattern. *)
Lemma one_set_secret_stays_in_the_set_witness :
  exists s,
    randomSecret office 20 "([A-Za-z0-9])" 0%nat
    = ((0 + Z.to_nat 20)%nat, inr s)
    /\ Z.of_nat (String.length s) = 20
    /\ all_chars
         (fun c => set_accepts false alphanumeric c && printable_char c) s
       = true.
Proof.
  apply (one_set_secret_stays_in_the_set office "([A-Za-z0-9])" false
           alphanumeric 20 0%nat).
  - right. reflexivity.
  - reflexivity.
  - discriminate.
Defined.

(** A command of three spaces. *)
Lemma blank_command_is_not_run_witness :
  (forall h' d,
     getSecret h' (generator_of (params (command_request (Some "   ")))) d
     = (d, inl IndexError))
  /\ exists s',
       main office (command_request (Some "   ")) 1 vacant
       = Some (s', raised IndexError)
       /\ envelopes s' = envelopes vacant.
Proof.
  apply (blank_command_is_not_run office (command_request (Some "   ")) 1
           vacant); try reflexivity.
  right. reflexivity.
Defined.

Lemma other_slugs_are_untouched_witness :
  elsewhere_untouched db stale reconciled.
Proof.
  apply (other_slugs_are_untouched office (task present false false) 1 stale
           reconciled (exit_json reconciled_report)).
  reflexivity.
Defined.

(** The rotation of the secret of [stale] on a host without private key:
    the envelope is encrypted for A and B, the directory declares A and C. *)
Lemma rotation_never_decrypts_witness :
  exists s',
    main keyless (task present true false) 1 stale
    = Some (s', exit_json (rotation_report ["A"; "C"]))
    /\ envelopes s'
       = <[db := {| env_recipients := ["A"; "C"];
                    env_payload := encode Plain (generated (Some "30741")) |}]>
           (envelopes stale)
    /\ history s' = ReadActual db :: Put db :: ReadActual db :: history stale
    /\ warned s' = warned stale.
Proof.
  apply (rotation_never_decrypts keyless (task present true false) 1 stale
           {| env_recipients := ["A"; "B"]; env_payload := "hunter2" |}
           ["A"; "C"] 5%nat (Some "30741")); reflexivity.
Defined.

Lemma rotation_rehearsal_reports_old_recipients_witness :
  exists s',
    main office (task present true true) 1 stale
    = Some (s', exit_json (rotation_report ["A"; "B"]))
    /\ envelopes s' = envelopes stale
    /\ drawn s' = 5%nat
    /\ history s' = ReadActual db :: history stale.
Proof.
  apply (rotation_rehearsal_reports_old_recipients office
           (task present true true) 1 stale
           {| env_recipients := ["A"; "B"]; env_payload := "hunter2" |}
           5%nat (Some "30741")); reflexivity.
Defined.

(** The rotation by a command that exits with status 1. *)
Lemma failure_writes_nothing_witness : envelopes unrotated = envelopes stale.
Proof.
  apply (failure_writes_nothing office (rotate_with "false") 1 stale unrotated
           (raised (CalledProcessError 1 EmptyString "boom")));
    [reflexivity | discriminate].
Defined.

Lemma absent_always_succeeds_and_is_idempotent_witness :
  exists s1 o1 s2 o2,
    main office (task absent false false) 1 stale = Some (s1, exit_json o1)
    /\ envelopes s1 = delete db (envelopes stale)
    /\ main office (task absent false false) 1 s1 = Some (s2, exit_json o2)
    /\ envelopes s2 = envelopes s1.
Proof.
  apply (absent_always_succeeds_and_is_idempotent office
           (task absent false false) 1 stale); reflexivity.
Defined.

Lemma absent_rehearsal_fails_on_mismatch_witness :
  exists s',
    main office (task absent false true) 1 stale
    = Some (s', raised RecipientsMismatchError)
    /\ envelopes s' = envelopes stale
    /\ history s' = Get db true :: history stale.
Proof.
  apply (absent_rehearsal_fails_on_mismatch office (task absent false true) 1
           stale {| env_recipients := ["A"; "B"]; env_payload := "hunter2" |}
           ["A"; "C"]); try reflexivity.
  discriminate.
Defined.

(** Asking for the output of [false] instead of random digits. *)
Lemma existing_secret_ignores_generation_witness :
  main office
    (with_generation binary (Some "false") 3 "x" None (task present false false))
    1 stale
  = main office (task present false false) 1 stale.
Proof.
  apply (existing_secret_ignores_generation office (task present false false)
           1 stale {| env_recipients := ["A"; "B"]; env_payload := "hunter2" |});
    reflexivity.
Defined.

Lemma change_and_action_agree_witness :
  (Output.changed reconciled_report = true
   <-> Output.action reconciled_report <> None)
  /\ In (Output.action reconciled_report) [None; Some "add"; Some "update"]
  /\ Output.password_slug reconciled_report = db.
Proof.
  apply (change_and_action_agree office (task present false false) 1 stale
           reconciled reconciled_report).
  reflexivity.
Defined.


Lemma unchanged_run_is_the_same_in_check_mode_witness :
  main office (with_check true (task present false false)) 1 settled
  = Some (kept, exit_json kept_report).
Proof.
  apply (unchanged_run_is_the_same_in_check_mode office
           (task present false false) 1 settled kept kept_report true);
    reflexivity.
Defined.
